(** * Chat adapters: message queue, retry executor and code extraction

    A shallow embedding of [model/openai/OpenAiChat.py] and
    [model/groq/GroqChat.py].

    The two classes share, word for word, the methods [structure_message],
    [set_system_prompt], [clear_history] and [extract_code]; they differ in
    the [except] clause of [retry_with_exponential_backoff] and in the
    handlers of [get_response].  The shared methods are embedded once; the
    differing ones live in the modules [GroqChat] and [OpenAiChat]. *)

From Stdlib Require Import List ZArith String Ascii Bool Lia.
Import ListNotations.
Local Open Scope string_scope.
Local Open Scope list_scope.
Local Open Scope Z_scope.

Local Set Warnings "-register-all".

(** ** Python values and exceptions *)

(** The values the methods can be handed.  A [dict] is an association list
    in insertion order (iteration over a dict yields its keys in that
    order); keys are strings, as in JSON-like message objects. *)
Inductive pyval : Type :=
| PNone : pyval
| PBool : bool -> pyval
| PInt : Z -> pyval
| PStr : string -> pyval
| PList : list pyval -> pyval
| PDict : list (string * pyval) -> pyval.

(** Instances of [Exception].  [APIError] stands for [openai.APIError] and
    its subclasses; [OtherError] for any other exception class a remote
    call may raise. *)
Inductive exn : Type :=
| APIError : string -> exn
| ValueError : string -> exn
| TypeError : exn
| KeyError : string -> exn
| IndexError : exn
| OverflowError : exn
| RecursionError : exn
| OtherError : string -> exn.

(** Outcome of an expression: a value or a raised exception. *)
Inductive result (A : Type) : Type :=
| Ok : A -> result A
| Err : exn -> result A.
Arguments Ok {A} _.
Arguments Err {A} _.

Definition bind {A B} (r : result A) (k : A -> result B) : result B :=
  match r with
  | Ok a => k a
  | Err e => Err e
  end.

Notation "x <- r ;; k" := (bind r (fun x => k))
  (at level 61, r at next level, right associativity).

Definition is_APIError (e : exn) : bool :=
  match e with
  | APIError _ => true
  | _ => false
  end.

(** ** Dictionaries and subscripting *)

Fixpoint dict_get (k : string) (d : list (string * pyval)) : option pyval :=
  match d with
  | [] => None
  | (k', v) :: d' => if String.eqb k k' then Some v else dict_get k d'
  end.

(** [k in d] *)
Definition dict_has (k : string) (d : list (string * pyval)) : bool :=
  match dict_get k d with
  | Some _ => true
  | None => false
  end.

(** [d[k] = v]: an existing key keeps its position, a new one goes last. *)
Fixpoint dict_set (k : string) (v : pyval) (d : list (string * pyval))
  : list (string * pyval) :=
  match d with
  | [] => [(k, v)]
  | (k', v') :: d' =>
      if String.eqb k k' then (k', v) :: d' else (k', v') :: dict_set k v d'
  end.

(** [x[k]] for a string key [k]: only a dict can be subscripted by a string;
    a missing key raises [KeyError], any other receiver [TypeError]. *)
Definition getitem (x : pyval) (k : string) : result pyval :=
  match x with
  | PDict d =>
      match dict_get k d with
      | Some v => Ok v
      | None => Err (KeyError k)
      end
  | _ => Err TypeError
  end.

(** [x[k] = v] for a string key [k]. *)
Definition setitem (x : pyval) (k : string) (v : pyval) : result pyval :=
  match x with
  | PDict d => Ok (PDict (dict_set k v d))
  | _ => Err TypeError
  end.

(** [v == "system"] *)
Definition eq_system (v : pyval) : bool :=
  match v with
  | PStr s => String.eqb s "system"
  | _ => false
  end.

Definition isinstance_str (v : pyval) : bool :=
  match v with
  | PStr _ => true
  | _ => false
  end.

(** [isinstance(m, dict) and "role" in m and "content" in m] *)
Definition well_formed (m : pyval) : bool :=
  match m with
  | PDict d => dict_has "role" d && dict_has "content" d
  | _ => false
  end.

(** Characters of a string, each as a one-character string. *)
Fixpoint chars (s : string) : list pyval :=
  match s with
  | EmptyString => []
  | String c s' => PStr (String c EmptyString) :: chars s'
  end.

(** The elements [list.extend(x)] iterates over: the items of a list, the
    keys of a dict, the characters of a string; the other values are not
    iterable. *)
Definition py_iter (x : pyval) : result (list pyval) :=
  match x with
  | PList l => Ok l
  | PDict d => Ok (map (fun kv => PStr (fst kv)) d)
  | PStr s => Ok (chars s)
  | _ => Err TypeError
  end.

(** [q[start:]] with Python's treatment of a negative or too large start. *)
Definition slice_from {A : Type} (start : Z) (q : list A) : list A :=
  let len := Z.of_nat (List.length q) in
  let s := if start <? 0 then Z.max (start + len) 0 else Z.min start len in
  skipn (Z.to_nat s) q.

(** ** [str.split] and [str.count] *)

(** [s.split(sep)] for a non-empty separator: scan from the left, cut at each
    occurrence and resume after it.  [skip] counts the characters of a
    matched separator still to be passed over; [cur] is the piece being
    built.  (Python raises on an empty separator; both call sites pass a
    literal.  The separators are ASCII, so cutting the UTF-8 bytes cuts
    where Python cuts the code points.) *)
Fixpoint split_go (sep s : string) (skip : nat) (cur : string) : list string :=
  match s with
  | EmptyString => [cur]
  | String c s' =>
      match skip with
      | S n => split_go sep s' n cur
      | O =>
          if String.prefix sep s
          then cur :: split_go sep s' (String.length sep - 1) EmptyString
          else split_go sep s' O (cur ++ String c EmptyString)
      end
  end.

Definition split (sep s : string) : list string := split_go sep s O EmptyString.

(** [s.count(sep)]: the number of non-overlapping occurrences, found from
    the left. *)
Fixpoint count_go (sep s : string) (skip : nat) : nat :=
  match s with
  | EmptyString => O
  | String c s' =>
      match skip with
      | S n => count_go sep s' n
      | O =>
          if String.prefix sep s
          then S (count_go sep s' (String.length sep - 1))
          else count_go sep s' O
      end
  end.

Definition count (sep s : string) : nat := count_go sep s O.

Definition fence : string := "```".
Definition newline : string := String "010"%char EmptyString.

(** ** [extract_code] (identical in both classes)

<<
    code_with_lang_tag = response.split('```')[1]
    code = code_with_lang_tag.split("\n")[1:]
    return code
>> *)
Definition extract_code (response : string) : result (list string) :=
  match nth_error (split fence response) 1 with
  | None => Err IndexError
  | Some code_with_lang_tag =>
      Ok (slice_from 1 (split newline code_with_lang_tag))
  end.

Definition sample_response : string :=
  ("intro" ++ newline ++ "```python" ++ newline ++ "print(1)" ++ newline
   ++ "```" ++ newline ++ "outro")%string.

(** ** The adapter state

    The fields of [self] the embedded methods read or write.  The generation
    parameters, the session identifier and [base_delay] are opaque to them. *)
Record Adapter : Type := mkAdapter {
  max_chat_history : Z;
  max_retry : Z;
  system_prompt : string;
  messages_queue : list pyval
}.

(** [__init__]: the queue starts empty. *)
Definition init (system_prompt : string) (max_chat_history max_retry : Z)
  : Adapter :=
  mkAdapter max_chat_history max_retry system_prompt [].

Definition with_queue (st : Adapter) (q : list pyval) : Adapter :=
  mkAdapter (max_chat_history st) (max_retry st) (system_prompt st) q.

Definition system_message (prompt : string) : pyval :=
  PDict [("role", PStr "system"); ("content", PStr prompt)].

Definition user_message (m : pyval) : pyval :=
  PDict [("role", PStr "user"); ("content", m)].

Definition assistant_message (content : string) : pyval :=
  PDict [("role", PStr "assistant"); ("content", PStr content)].

Definition invalid_format : exn :=
  ValueError "Invalid message format. Should be a string, list of strings, or list of properly formatted message objects.".

(** ** [structure_message] (identical in both classes) *)

(** The rebinding of the local [message] by the [if]/[elif] chain.  A value
    that is neither a [str] nor a [list] matches no branch and is left as it
    is. *)
Definition normalize (message : pyval) : result pyval :=
  match message with
  | PStr s => Ok (PList [user_message (PStr s)])
  | PList l =>
      if forallb isinstance_str l then Ok (PList (map user_message l))
      else if negb (forallb well_formed l) then Err invalid_format
      else Ok (PList l)
  | other => Ok other
  end.

(** [[msg for msg in q if msg["role"] == "system"]]: every element is
    subscripted, so one without a role makes the comprehension raise. *)
Fixpoint system_messages (q : list pyval) : result (list pyval) :=
  match q with
  | [] => Ok []
  | msg :: q' =>
      r <- getitem msg "role" ;;
      rest <- system_messages q' ;;
      Ok (if eq_system r then msg :: rest else rest)
  end.

(** The trimming step on the extended queue [q]. *)
Definition trim (max_chat_history : Z) (q : list pyval)
  : result (list pyval) :=
  if Z.of_nat (List.length q) >? max_chat_history then
    sys <- system_messages q ;;
    Ok (sys ++ slice_from (- (max_chat_history - 1)) q)
  else Ok q.

(** The system-prompt step: [if not q or q[0]["role"] != "system": insert]. *)
Definition ensure_system (prompt : string) (q : list pyval)
  : result (list pyval) :=
  match q with
  | [] => Ok (system_message prompt :: q)
  | m0 :: _ =>
      r <- getitem m0 "role" ;;
      Ok (if negb (eq_system r) then system_message prompt :: q else q)
  end.

(** The method returns the queue; the adapter carries the queue as the
    method left it, also when a later statement raised. *)
Definition structure_message (message : pyval) (st : Adapter)
  : result (list pyval) * Adapter :=
  match normalize message with
  | Err e => (Err e, st)
  | Ok message' =>
      match py_iter message' with
      | Err e => (Err e, st)
      | Ok items =>
          let q1 := messages_queue st ++ items in
          match trim (max_chat_history st) q1 with
          | Err e => (Err e, with_queue st q1)
          | Ok q2 =>
              match ensure_system (system_prompt st) q2 with
              | Err e => (Err e, with_queue st q2)
              | Ok q3 => (Ok q3, with_queue st q3)
              end
          end
      end
  end.

(** ** [set_system_prompt] and [clear_history] (identical in both classes) *)

(** [any(message["role"] == "system" for message in q)]: stops at the first
    system message. *)
Fixpoint any_system (q : list pyval) : result bool :=
  match q with
  | [] => Ok false
  | msg :: q' =>
      r <- getitem msg "role" ;;
      if eq_system r then Ok true else any_system q'
  end.

Definition set_prompt (st : Adapter) (prompt : string) : Adapter :=
  mkAdapter (max_chat_history st) (max_retry st) prompt (messages_queue st).

(** The prompt is stored first; then either a system message is inserted at
    index 0 or the content of the element at index 0 is overwritten, whatever
    its role.  Python overwrites the dict object in place, which also shows
    in every other place that holds the same object.  The queue is modelled
    by the values of its entries, so the definition describes the call on
    the queues in which no other entry is or holds the same object as the
    entry at index 0: those in which its value occurs in no other entry, and
    those the
    adapter builds from inputs without system messages when
    [max_chat_history >= 2], where index 0 holds a dict the adapter made
    itself and put nowhere else. *)
Definition set_system_prompt (prompt : string) (st : Adapter)
  : result unit * Adapter :=
  let st1 := set_prompt st prompt in
  match any_system (messages_queue st1) with
  | Err e => (Err e, st1)
  | Ok false =>
      (Ok tt, with_queue st1 (system_message prompt :: messages_queue st1))
  | Ok true =>
      match messages_queue st1 with
      | [] => (Err IndexError, st1)
      | m0 :: rest =>
          match setitem m0 "content" (PStr prompt) with
          | Err e => (Err e, st1)
          | Ok m0' => (Ok tt, with_queue st1 (m0' :: rest))
          end
      end
  end.

Definition clear_history (st : Adapter) : Adapter :=
  with_queue st [system_message (system_prompt st)].

(** ** The remote call and the retry executor *)

(** What surrounds a run of the adapter.  [calls]: how often the remote call
    was invoked.  [sleeps]: the [retries] value of each [time.sleep], in
    order (the delay slept is [(2 ** retries + random.random()) * base_delay];
    [time.sleep] is taken to accept every delay).  [room]: how many nested
    activations of the retry executor the interpreter's recursion limit
    still allows to run their handler when the adapter is called; it depends
    on [sys.getrecursionlimit()] and on the depth of the caller, and a run
    does not change it. *)
Record World : Type := MkWorld {
  calls : nat;
  sleeps : list Z;
  room : nat
}.

(** The room of the worlds written [mkWorld calls sleeps]: a tenth of
    Python's default recursion limit of 1000 frames, which leaves the rest
    to the caller, the remote call and the logger. *)
Definition default_room : nat := 100.

Definition mkWorld (calls : nat) (sleeps : list Z) : World :=
  MkWorld calls sleeps default_room.

Definition world0 : World := mkWorld 0 [].

Definition tick (w : World) : World :=
  MkWorld (S (calls w)) (sleeps w) (room w).

Definition sleep (retries : Z) (w : World) : World :=
  MkWorld (calls w) (sleeps w ++ [retries]) (room w).

Section Retry.
Context {A : Type}.
(** The exception classes of the [except] clause. *)
Variable handles : exn -> bool.
Variable max_retry_ : Z.
(** The call of [func] on its bound arguments: the outcome of the
    invocation numbered by the count of invocations made before it. *)
Variable func : nat -> result A.

(** The body shared by the two executors:
<<
    try:
        return func(...)
    except <handled classes> as e:
        retries += 1
        if retries > self.max_retry:
            logger.error(...)
            raise
        delay = (2 ** retries + random.random()) * self.base_delay
        logger.error(...)
        logger.info(...)
        time.sleep(delay)
        return self.retry_with_exponential_backoff(func, ..., retries=retries)
>>
    An exception outside the handled classes leaves the method at once.  In
    the handler, [2 ** retries + random.random()] converts the integer power
    to a float and raises [OverflowError] from [retries = 1024] on; the
    calls of the logger raise [RecursionError] when no room is left for
    them, and each nested activation has one less.  Neither exception is
    raised inside the [try], so both leave every enclosing activation. *)
Fixpoint retry (room : nat) (retries : Z) (w : World) : result A * World :=
  match func (calls w) with
  | Ok v => (Ok v, tick w)
  | Err e =>
      if handles e then
        let retries := retries + 1 in
        if retries >? max_retry_ then
          match room with
          | O => (Err RecursionError, tick w)
          | S _ => (Err e, tick w)
          end
        else if 1024 <=? retries then (Err OverflowError, tick w)
        else
          match room with
          | O => (Err RecursionError, tick w)
          | S room' => retry room' retries (sleep retries (tick w))
          end
      else (Err e, tick w)
  end.
End Retry.

(** The remote completion call bound by [get_response]: the outcome of the
    invocation with the given number, for a model and the queue passed as
    [messages].  The reply is [response.choices[0].message.content]. *)
Definition Client : Type := nat -> string -> list pyval -> result string.

(** ** [GroqChat]: [except Exception] in both methods *)
Module GroqChat.

Definition retry_with_exponential_backoff {A : Type} (st : Adapter)
    (func : nat -> result A) (retries : Z) (w : World)
  : result A * World :=
  retry (fun _ => true) (max_retry st) func (room w) retries w.

(** The value returned is the reply text, [Some content]; every exception
    of the [try] body is logged and raised again. *)
Definition get_response (client : Client) (message : pyval)
    (model : string) (st : Adapter) (w : World)
  : result (option string) * Adapter * World :=
  match structure_message message st with
  | (Err e, st1) => (Err e, st1, w)
  | (Ok _, st1) =>
      match retry_with_exponential_backoff st1
              (fun n => client n model (messages_queue st1)) 0 w with
      | (Ok content, w1) =>
          (Ok (Some content),
           with_queue st1 (messages_queue st1 ++ [assistant_message content]),
           w1)
      | (Err e, w1) => (Err e, st1, w1)
      end
  end.

End GroqChat.

(** ** [OpenAiChat]: [except openai.APIError] *)
Module OpenAiChat.

Definition retry_with_exponential_backoff {A : Type} (st : Adapter)
    (func : nat -> result A) (retries : Z) (w : World)
  : result A * World :=
  retry is_APIError (max_retry st) func (room w) retries w.

(** The first handler logs an [openai.APIError] and does not raise: the
    method then falls off its end and returns [None].  The second handler
    logs and raises again. *)
Definition get_response (client : Client) (message : pyval)
    (model : string) (st : Adapter) (w : World)
  : result (option string) * Adapter * World :=
  match structure_message message st with
  | (Err e, st1) => (Err e, st1, w)
  | (Ok _, st1) =>
      match retry_with_exponential_backoff st1
              (fun n => client n model (messages_queue st1)) 0 w with
      | (Ok content, w1) =>
          (Ok (Some content),
           with_queue st1 (messages_queue st1 ++ [assistant_message content]),
           w1)
      | (Err e, w1) =>
          if is_APIError e then (Ok None, st1, w1) else (Err e, st1, w1)
      end
  end.

End OpenAiChat.


(** ** Vocabulary of the properties *)

(** The message is a dict whose role is ["system"]. *)
Definition role_is_system (m : pyval) : bool :=
  match getitem m "role" with
  | Ok r => eq_system r
  | Err _ => false
  end.

(** The message is a dict that has a role, and the role is not ["system"]. *)
Definition plain (m : pyval) : bool :=
  match getitem m "role" with
  | Ok r => negb (eq_system r)
  | Err _ => false
  end.

Definition count_system (q : list pyval) : nat :=
  List.length (filter role_is_system q).

Definition system_at_head (q : list pyval) : bool :=
  match q with
  | [] => true
  | m0 :: _ => role_is_system m0
  end.

(** At most one system message, and it leads a non-empty queue. *)
Definition one_system_first (q : list pyval) : bool :=
  (count_system q <=? 1)%nat && system_at_head q.

(** The shape of the queue the methods maintain: empty, or one system
    message followed by messages of other roles. *)
Definition good (q : list pyval) : bool :=
  match q with
  | [] => true
  | m0 :: rest => role_is_system m0 && forallb plain rest
  end.

(** The inputs [structure_message] is written for: a string, a list of
    strings, a list of objects that each have a role and a content. *)
Definition accepted (message : pyval) : bool :=
  match message with
  | PStr _ => true
  | PList l => forallb isinstance_str l || forallb well_formed l
  | _ => false
  end.

(** No message object of the input has the role ["system"]. *)
Definition no_system_role (message : pyval) : bool :=
  match message with
  | PList l => forallb (fun m => negb (role_is_system m)) l
  | _ => true
  end.

(** The operations on the queue, and the state each leaves (also when the
    call raises). *)
Inductive op : Type :=
| Append : pyval -> op
| SetSystemPrompt : string -> op
| ClearHistory : op.

Definition run_op (st : Adapter) (o : op) : Adapter :=
  match o with
  | Append message => snd (structure_message message st)
  | SetSystemPrompt prompt => snd (set_system_prompt prompt st)
  | ClearHistory => clear_history st
  end.

Definition run (ops : list op) (st : Adapter) : Adapter :=
  fold_left run_op ops st.

Definition accepted_op (o : op) : bool :=
  match o with
  | Append message => accepted message
  | _ => true
  end.

Definition non_system_op (o : op) : bool :=
  match o with
  | Append message => accepted message && no_system_role message
  | _ => true
  end.

(** [s.find(sep)]: the index of the leftmost occurrence of [sep] in [s],
    [None] where Python gives -1. *)
Fixpoint find (sep s : string) : option nat :=
  if String.prefix sep s then Some 0%nat
  else match s with
       | EmptyString => None
       | String _ s' => option_map S (find sep s')
       end.

(** [s[:n]] and [s[n:]] for [n >= 0]. *)
Fixpoint str_take (n : nat) (s : string) : string :=
  match n, s with
  | S n', String c s' => String c (str_take n' s')
  | _, _ => EmptyString
  end.

Fixpoint str_drop (n : nat) (s : string) : string :=
  match n, s with
  | S n', String _ s' => str_drop n' s'
  | _, _ => s
  end.

(** The value [x] occurs in [v]: it is [v], or occurs in an item of the list
    [v] or in a value of the dict [v]. *)
Fixpoint occurs_in (x v : pyval) {struct v} : Prop :=
  x = v
  \/ match v with
     | PList l =>
         (fix any (l : list pyval) : Prop :=
            match l with
            | [] => False
            | a :: l' => occurs_in x a \/ any l'
            end) l
     | PDict d =>
         (fix any (d : list (string * pyval)) : Prop :=
            match d with
            | [] => False
            | (_, a) :: d' => occurs_in x a \/ any d'
            end) d
     | _ => False
     end.

(** The character does not occur in the string. *)
Fixpoint lacks (c : ascii) (s : string) : bool :=
  match s with
  | EmptyString => true
  | String c' s' => negb (Ascii.eqb c c') && lacks c s'
  end.

(** Three calls of [get_response] in a row, as in the scenario
    ["hi"], ["again"], ["third"]. *)
Definition three_calls
    (get_response : Client -> pyval -> string -> Adapter -> World ->
                    result (option string) * Adapter * World)
    (client : Client) (model : string) (st : Adapter) (w : World)
  : result (option string) * Adapter * World :=
  let '(_, st1, w1) := get_response client (PStr "hi") model st w in
  let '(_, st2, w2) := get_response client (PStr "again") model st1 w1 in
  get_response client (PStr "third") model st2 w2.

(** The world after a run that started in [w] with the counter [retries]
    and made [n] handled failures, each followed by a sleep, and one more
    invocation. *)
Definition after_attempts (n : nat) (retries : Z) (w : World) : World :=
  MkWorld (calls w + n + 1)
    (sleeps w ++ map (fun i => retries + Z.of_nat i) (seq 1 n)) (room w).


(** One run of an executor with budget [R], from the world [w] to [w']: at
    least one invocation and at most [max 0 R + 1]; one sleep between two
    consecutive invocations, with the exponents 1, 2, ... in order. *)
Definition run_within_budget (R : Z) (w w' : World) : Prop :=
  (calls w < calls w')%nat
  /\ Z.of_nat (calls w' - calls w) <= Z.max 0 R + 1
  /\ sleeps w' = sleeps w ++ map Z.of_nat (seq 1 (calls w' - calls w - 1)).

(** * Properties *)

(** ** The retry executor *)

Section RetryFacts.
Context {A : Type}.
Variable handles : exn -> bool.
Variable R : Z.
Variable func : nat -> result A.

Lemma after_no_attempt (retries : Z) (w : World) :
  after_attempts 0 retries w = tick w.
Proof.
  unfold after_attempts, tick. cbn [seq map].
  now rewrite Nat.add_0_r, Nat.add_1_r, app_nil_r.
Qed.

Lemma after_one_more (n : nat) (retries : Z) (w : World) :
  after_attempts n (retries + 1) (sleep (retries + 1) (tick w))
  = after_attempts (S n) retries w.
Proof.
  unfold after_attempts. cbn [calls sleeps room sleep tick].
  f_equal; [lia |].
  rewrite <- app_assoc. f_equal. cbn [seq map app].
  f_equal. rewrite <- (seq_shift _ 1), map_map.
  apply map_ext. intros i. lia.
Qed.

Lemma retry_success rm retries w v :
  func (calls w) = Ok v ->
  retry handles R func rm retries w = (Ok v, tick w).
Proof. intros H. destruct rm; cbn [retry]; now rewrite H. Qed.

Lemma retry_not_handled rm retries w e :
  func (calls w) = Err e -> handles e = false ->
  retry handles R func rm retries w = (Err e, tick w).
Proof. intros H Hh. destruct rm; cbn [retry]; now rewrite H, Hh. Qed.

Lemma retry_exhausted rm retries w e :
  func (calls w) = Err e -> handles e = true -> retries + 1 > R ->
  retry handles R func (S rm) retries w = (Err e, tick w).
Proof.
  intros H Hh Hr. cbn [retry]. rewrite H, Hh. cbv zeta.
  destruct (Z.gtb_spec (retries + 1) R); [reflexivity | lia].
Qed.

Lemma retry_again rm retries w e :
  func (calls w) = Err e -> handles e = true ->
  retries + 1 <= R -> retries + 1 < 1024 ->
  retry handles R func (S rm) retries w
  = retry handles R func rm (retries + 1) (sleep (retries + 1) (tick w)).
Proof.
  intros H Hh Hr Ho. cbn [retry]. rewrite H, Hh. cbv zeta.
  destruct (Z.gtb_spec (retries + 1) R); [lia |].
  destruct (Z.leb_spec 1024 (retries + 1)); [lia | reflexivity].
Qed.

Lemma retry_overflow rm retries w e :
  func (calls w) = Err e -> handles e = true ->
  retries + 1 <= R -> 1024 <= retries + 1 ->
  retry handles R func rm retries w = (Err OverflowError, tick w).
Proof.
  intros H Hh Hr Ho. destruct rm; cbn [retry]; rewrite H, Hh; cbv zeta;
    (destruct (Z.gtb_spec (retries + 1) R); [lia |]);
    (destruct (Z.leb_spec 1024 (retries + 1)); [reflexivity | lia]).
Qed.

Lemma retry_no_room retries w e :
  func (calls w) = Err e -> handles e = true -> retries + 1 < 1024 ->
  retry handles R func 0 retries w = (Err RecursionError, tick w).
Proof.
  intros H Hh Ho. cbn [retry]. rewrite H, Hh. cbv zeta.
  destruct (Z.gtb_spec (retries + 1) R); [reflexivity |].
  destruct (Z.leb_spec 1024 (retries + 1)); [lia | reflexivity].
Qed.


(** Handled failures until the budget is used up, below the overflow and
    within the room. *)
Lemma retry_fail_until_exhausted (err : nat -> exn) :
  forall (n rm : nat) (retries : Z) (w : World),
    (forall i, (i <= n)%nat ->
               func (calls w + i)%nat = Err (err i) /\ handles (err i) = true) ->
    retries + Z.of_nat n = R -> R < 1024 -> (n < rm)%nat ->
    retry handles R func rm retries w
    = (Err (err n), after_attempts n retries w).
Proof.
  intros n. revert err.
  induction n as [| n IH]; intros err rm retries w Hfail HR Hov Hrm.
  - destruct (Hfail 0%nat ltac:(lia)) as [H0 Hh0].
    rewrite Nat.add_0_r in H0. rewrite after_no_attempt.
    destruct rm as [| rm]; [lia |].
    apply retry_exhausted; [assumption | assumption | lia].
  - destruct (Hfail 0%nat ltac:(lia)) as [H0 Hh0].
    rewrite Nat.add_0_r in H0.
    destruct rm as [| rm]; [lia |].
    rewrite (retry_again _ _ _ _ H0 Hh0) by lia.
    rewrite (IH (fun i => err (S i))).
    + now rewrite after_one_more.
    + intros i Hi. cbn [calls sleep tick].
      replace (S (calls w) + i)%nat with (calls w + S i)%nat by lia.
      apply Hfail. lia.
    + lia.
    + lia.
    + lia.
Qed.


(** Every run: [n] handled failures, each followed by a sleep, then one
    last invocation.  The run ends with the outcome of that invocation, or
    with [OverflowError] or [RecursionError] raised by its handler. *)
Lemma retry_trace :
  forall (rm : nat) (retries : Z) (w : World),
  exists n : nat,
    snd (retry handles R func rm retries w) = after_attempts n retries w
    /\ Z.of_nat n <= Z.max 0 (R - retries)
    /\ (n <= rm)%nat
    /\ (forall i, (i < n)%nat ->
          exists e, func (calls w + i)%nat = Err e /\ handles e = true)
    /\ ((fst (retry handles R func rm retries w) = func (calls w + n)%nat
         /\ match func (calls w + n)%nat with
            | Ok _ => True
            | Err e => handles e = false
                       \/ (R < retries + Z.of_nat n + 1 /\ (n < rm)%nat)
            end)
        \/ (exists e, func (calls w + n)%nat = Err e /\ handles e = true
            /\ ((fst (retry handles R func rm retries w) = Err OverflowError
                 /\ retries + Z.of_nat n + 1 <= R
                 /\ 1024 <= retries + Z.of_nat n + 1)
                \/ (fst (retry handles R func rm retries w)
                    = Err RecursionError /\ n = rm)))).
Proof.
  assert (Hstop : forall rm retries w,
             (exists v, func (calls w) = Ok v)
             \/ (exists e, func (calls w) = Err e /\ handles e = false)
             \/ (exists e, func (calls w) = Err e /\ handles e = true
                           /\ (R < retries + 1 \/ 1024 <= retries + 1
                               \/ rm = 0%nat)) ->
             exists n : nat,
               snd (retry handles R func rm retries w)
               = after_attempts n retries w
               /\ Z.of_nat n <= Z.max 0 (R - retries)
               /\ (n <= rm)%nat
               /\ (forall i, (i < n)%nat ->
                     exists e, func (calls w + i)%nat = Err e
                               /\ handles e = true)
               /\ ((fst (retry handles R func rm retries w)
                    = func (calls w + n)%nat
                    /\ match func (calls w + n)%nat with
                       | Ok _ => True
                       | Err e => handles e = false
                                  \/ (R < retries + Z.of_nat n + 1
                                      /\ (n < rm)%nat)
                       end)
                   \/ (exists e, func (calls w + n)%nat = Err e
                       /\ handles e = true
                       /\ ((fst (retry handles R func rm retries w)
                            = Err OverflowError
                            /\ retries + Z.of_nat n + 1 <= R
                            /\ 1024 <= retries + Z.of_nat n + 1)
                           \/ (fst (retry handles R func rm retries w)
                               = Err RecursionError /\ n = rm))))).
  { intros rm retries w Hcase. exists 0%nat.
    rewrite after_no_attempt, Nat.add_0_r.
    destruct Hcase as [[v Hv] | [[e [He Hh]] | [e [He [Hh Hwhy]]]]].
    - rewrite (retry_success _ _ _ _ Hv), Hv. cbn [fst snd].
      repeat split; try lia. left. split; [reflexivity | exact I].
    - rewrite (retry_not_handled _ _ _ _ He Hh), He. cbn [fst snd].
      repeat split; try lia. left. split; [reflexivity | now left].
    - assert (Hw : snd (retry handles R func rm retries w) = tick w).
      { destruct (Z.gtb_spec (retries + 1) R) as [Hgt | Hle].
        - destruct rm; cbn [retry]; rewrite He, Hh; cbv zeta;
            (destruct (Z.gtb_spec (retries + 1) R); [reflexivity | lia]).
        - destruct (Z.leb_spec 1024 (retries + 1)) as [Hov | Hnov].
          + now rewrite (retry_overflow _ _ _ _ He Hh) by lia.
          + destruct Hwhy as [Hb | [Ho | ->]]; [lia | lia |].
            now rewrite (retry_no_room _ _ _ He Hh) by lia. }
      rewrite Hw, He. repeat split; try lia.
      destruct (Z.gtb_spec (retries + 1) R) as [Hgt | Hle].
      + destruct rm as [| rm].
        * right. exists e. repeat split; try assumption. right.
          split; [| reflexivity].
          cbn [retry]. rewrite He, Hh. cbv zeta.
          destruct (Z.gtb_spec (retries + 1) R); [reflexivity | lia].
        * left. rewrite (retry_exhausted _ _ _ _ He Hh) by lia.
          split; [reflexivity |]. right. split; lia.
      + destruct (Z.leb_spec 1024 (retries + 1)) as [Hov | Hnov].
        * right. exists e. repeat split; try assumption. left.
          rewrite (retry_overflow _ _ _ _ He Hh) by lia.
          repeat split; first [reflexivity | lia].
        * destruct Hwhy as [Hb | [Ho | ->]]; [lia | lia |].
          right. exists e. repeat split; try assumption. right.
          split; [| reflexivity].
          now rewrite (retry_no_room _ _ _ He Hh) by lia. }
  induction rm as [| rm IH]; intros retries w.
  - apply Hstop.
    destruct (func (calls w)) as [v | e] eqn:He; [left; eauto |].
    right. destruct (handles e) eqn:Hh; [right | left]; eauto 8.
  - destruct (func (calls w)) as [v | e] eqn:He;
      [apply Hstop; rewrite He; left; eauto |].
    destruct (handles e) eqn:Hh;
      [| apply Hstop; rewrite He; right; left; eauto].
    destruct (Z.gtb_spec (retries + 1) R) as [Hgt | Hle];
      [apply Hstop; rewrite He; right; right; exists e; auto |].
    destruct (Z.leb_spec 1024 (retries + 1)) as [Hov | Hnov];
      [apply Hstop; rewrite He; right; right; exists e; auto |].
    rewrite (retry_again _ _ _ _ He Hh) by lia.
    destruct (IH (retries + 1) (sleep (retries + 1) (tick w)))
      as [n [Hw [Hn [Hrm [Hfail Hend]]]]].
    cbn [calls sleep tick] in Hfail, Hend.
    exists (S n). rewrite Hw, after_one_more.
    replace (calls w + S n)%nat with (S (calls w) + n)%nat by lia.
    repeat split; try lia.
    + intros [| i] Hi.
      * exists e. rewrite Nat.add_0_r. auto.
      * destruct (Hfail i ltac:(lia)) as [e' He'].
        exists e'. replace (calls w + S i)%nat with (S (calls w) + i)%nat by lia.
        exact He'.
    + destruct Hend as [[Hr Hwhy] | [e' [He' [Hh' Hwhy]]]].
      * left. split; [exact Hr |].
        destruct (func (S (calls w) + n)%nat); [exact I |].
        destruct Hwhy as [Hu | [Hb Hl]]; [now left | right; split; lia].
      * right. exists e'. repeat split; try assumption.
        destruct Hwhy as [[Ho [Hb Hc]] | [Hrec Hnr]];
          [left; repeat split; [exact Ho | lia | lia]
          | right; split; [exact Hrec | lia]].
Qed.
End RetryFacts.



Lemma offsets_from_zero (n : nat) :
  map (fun i => 0 + Z.of_nat i) (seq 1 n) = map Z.of_nat (seq 1 n).
Proof. apply map_ext. intros i. lia. Qed.







Lemma after_attempts_zero (n : nat) (w : World) :
  after_attempts n 0 w
  = MkWorld (calls w + n + 1) (sleeps w ++ map Z.of_nat (seq 1 n)) (room w).
Proof. unfold after_attempts. now rewrite offsets_from_zero. Qed.





(** ** [extract_code] *)

Lemma split_go_length (sep s : string) :
  forall skip cur,
    List.length (split_go sep s skip cur) = S (count_go sep s skip).
Proof.
  induction s as [| c s IH]; intros skip cur; [reflexivity |].
  cbn [split_go count_go]. destruct skip as [| n]; [| apply IH].
  destruct (String.prefix sep (String c s)); cbn [List.length];
    now rewrite IH.
Qed.

Lemma split_length (sep s : string) :
  List.length (split sep s) = S (count sep s).
Proof. apply split_go_length. Qed.

Lemma prefix_app (a b : string) : String.prefix a (a ++ b) = true.
Proof.
  induction a as [| c a IH]; cbn; [now destruct b |].
  destruct (ascii_dec c c); [exact IH | contradiction].
Qed.

Lemma prefix_inv (a : string) :
  forall s, String.prefix a s = true -> exists b, s = (a ++ b)%string.
Proof.
  induction a as [| c a IH]; intros s H; [exists s; reflexivity |].
  destruct s as [| c' s]; cbn in H; [discriminate |].
  destruct (ascii_dec c c') as [-> |]; [| discriminate].
  destruct (IH s H) as [b ->]. exists b. reflexivity.
Qed.

(** [count] finds an occurrence whenever there is one. *)
Lemma count_zero_iff (sep s : string) :
  sep <> EmptyString ->
  count sep s = 0%nat
  <-> forall pre post, s <> (pre ++ sep ++ post)%string.
Proof.
  intros Hsep. unfold count.
  induction s as [| c s IH].
  - split; [| reflexivity]. intros _ pre post H.
    destruct pre; [| discriminate]. destruct sep; [congruence | discriminate].
  - cbn [count_go].
    destruct (String.prefix sep (String c s)) eqn:Hp.
    + split; [discriminate |]. intros H. exfalso.
      destruct (prefix_inv _ _ Hp) as [b Hb].
      exact (H EmptyString b Hb).
    + rewrite IH. split; intros H pre post E.
      * destruct pre as [| c' pre].
        -- cbn in E. rewrite E, prefix_app in Hp. discriminate.
        -- cbn in E. injection E as _ E. exact (H pre post E).
      * apply (H (String c pre) post). cbn. now rewrite E.
Qed.

Lemma string_app_assoc (a b c : string) :
  ((a ++ b) ++ c = a ++ (b ++ c))%string.
Proof. induction a as [| x a IH]; cbn; [reflexivity | now rewrite IH]. Qed.

Lemma string_app_nil_r (a : string) : (a ++ "" = a)%string.
Proof. induction a as [| x a IH]; cbn; [reflexivity | now rewrite IH]. Qed.

(** Passing over the rest of a matched separator. *)
Lemma split_go_skip (sep x rest cur : string) :
  split_go sep (x ++ rest) (String.length x) cur = split_go sep rest 0 cur.
Proof.
  induction x as [| c x IH]; cbn [append String.length]; [reflexivity |].
  destruct rest; cbn [split_go]; exact IH.
Qed.

(** A text without the first character of the separator is taken whole. *)
Lemma split_go_lacks (c0 : ascii) (sep' : string) (a : string) :
  forall rest cur,
    lacks c0 a = true ->
    split_go (String c0 sep') (a ++ rest) 0 cur
    = split_go (String c0 sep') rest 0 (cur ++ a).
Proof.
  induction a as [| c a IH]; intros rest cur H.
  - cbn [append]. now rewrite string_app_nil_r.
  - cbn [lacks] in H. apply andb_prop in H as [Hc Ha].
    cbn [append split_go String.prefix].
    destruct (ascii_dec c0 c) as [-> | _].
    + rewrite Ascii.eqb_refl in Hc. discriminate.
    + rewrite (IH rest _ Ha), string_app_assoc. reflexivity.
Qed.

(** At an occurrence of the separator the piece is closed. *)
Lemma split_go_separator (c0 : ascii) (sep' rest cur : string) :
  split_go (String c0 sep') (String c0 sep' ++ rest) 0 cur
  = cur :: split_go (String c0 sep') rest 0 "".
Proof.
  pose proof (prefix_app (String c0 sep') rest) as Hp.
  cbn [append] in Hp |- *. cbn [split_go]. rewrite Hp.
  cbn [String.length]. replace (S (String.length sep') - 1)%nat
    with (String.length sep') by lia.
  f_equal. apply split_go_skip.
Qed.

(** The first piece of a text that reaches the separator only after [a]. *)
Lemma split_first_piece (c0 : ascii) (sep' a rest : string) :
  lacks c0 a = true ->
  split (String c0 sep') (a ++ String c0 sep' ++ rest)
  = a :: split (String c0 sep') rest.
Proof.
  intros Ha. unfold split.
  rewrite (split_go_lacks c0 sep' a _ "" Ha), split_go_separator.
  reflexivity.
Qed.

(** C3 (as amended): on the sample the result has two elements, the line
    [print(1)] and the empty string that follows the last line break of the
    block.  In general, for a response whose text before the first fence,
    language tag and block body hold no backtick: the result is the body of
    the first block split at its line breaks, the tag line dropped, whatever
    follows the closing fence. *)
Theorem extract_code_first_block :
  extract_code sample_response = Ok ["print(1)"; ""]
  /\ forall pre tag body post : string,
      lacks "`" pre = true -> lacks "`" tag = true ->
      lacks "`" body = true -> lacks "010" tag = true ->
      extract_code
        (pre ++ fence ++ tag ++ newline ++ body ++ fence ++ post)
      = Ok (split newline body).
Proof.
  split; [reflexivity |].
  intros pre tag body post Hpre Htag Hbody Hnl. unfold extract_code, fence.
  rewrite (split_first_piece "`" "``" pre _ Hpre).
  replace (tag ++ newline ++ body ++ "```" ++ post)%string
    with ((tag ++ newline ++ body) ++ "```" ++ post)%string
    by (now rewrite !string_app_assoc).
  rewrite (split_first_piece "`" "``" (tag ++ newline ++ body) post).
  - cbn [nth_error]. unfold newline.
    rewrite (split_first_piece "010" "" tag body Hnl).
    unfold slice_from. cbn [List.length]. f_equal.
    destruct (Z.ltb_spec 1 0); [lia |].
    replace (Z.to_nat (Z.min 1 _)) with 1%nat by lia.
    reflexivity.
  - clear - Htag Hbody. induction tag as [| c tag IH]; cbn in Htag |- *.
    + exact Hbody.
    + apply andb_prop in Htag as [Hc Ht]. rewrite Hc. now apply IH.
Qed.

Lemma extract_code_first_block_witness :
  extract_code
    (("intro" ++ newline) ++ fence ++ "python" ++ newline
     ++ ("print(1)" ++ newline) ++ fence ++ newline ++ "outro")
  = Ok ["print(1)"; ""].
Proof.
  exact (proj2 extract_code_first_block ("intro" ++ newline)%string "python"
           ("print(1)" ++ newline)%string (newline ++ "outro")%string
           eq_refl eq_refl eq_refl eq_refl).
Defined.

(** C3, as stated, fails: the result is not the one-element sequence. *)
Lemma extract_code_sample_not_single :
  extract_code sample_response <> Ok ["print(1)"].
Proof. vm_compute. discriminate. Qed.

(** What [find] finds: an occurrence, and the leftmost one. *)
Lemma find_some (sep s : string) :
  forall i, find sep s = Some i ->
            s = (str_take i s ++ sep ++ str_drop (i + String.length sep) s)%string
            /\ forall k, (k < i)%nat ->
                         String.prefix sep (str_drop k s) = false.
Proof.
  induction s as [| c s IH]; intros i; cbn [find].
  - destruct (String.prefix sep "") eqn:Hp; [| discriminate].
    intros H. injection H as <-. split; [| intros k Hk; lia].
    destruct sep; [reflexivity | discriminate].
  - destruct (String.prefix sep (String c s)) eqn:Hp.
    + intros H. injection H as <-. split; [| intros k Hk; lia].
      destruct (prefix_inv _ _ Hp) as [b Hb]. cbn [str_take Nat.add append].
      rewrite Hb at 1. f_equal. rewrite Hb. clear.
      induction sep as [| x sep IHs]; [reflexivity | exact IHs].
    + destruct (find sep s) as [i' |]; [| discriminate].
      intros H. injection H as <-. destruct (IH i' eq_refl) as [Hs Hleft].
      split.
      * cbn [str_take str_drop Nat.add append]. now rewrite <- Hs.
      * intros [| k] Hk; [exact Hp |]. cbn [str_drop]. apply Hleft. lia.
Qed.

Lemma find_none (sep s : string) :
  find sep s = None -> forall k, String.prefix sep (str_drop k s) = false.
Proof.
  induction s as [| c s IH]; cbn [find].
  - destruct (String.prefix sep "") eqn:Hp; [discriminate |].
    intros _ [| k]; exact Hp.
  - destruct (String.prefix sep (String c s)) eqn:Hp; [discriminate |].
    destruct (find sep s); [discriminate |].
    intros _ [| k]; [exact Hp |]. cbn [str_drop]. now apply IH.
Qed.

Lemma split_go_drop (sep s : string) :
  forall n cur, split_go sep s n cur = split_go sep (str_drop n s) 0 cur.
Proof.
  induction s as [| c s IH]; intros [| n] cur; try reflexivity.
  cbn [split_go str_drop]. apply IH.
Qed.

(** The split, piece by piece: the text before the leftmost occurrence,
    then the split of what follows that occurrence. *)
Lemma split_go_find (c0 : ascii) (sep' s : string) :
  forall cur,
    split_go (String c0 sep') s 0 cur
    = match find (String c0 sep') s with
      | None => [(cur ++ s)%string]
      | Some i =>
          (cur ++ str_take i s)%string
          :: split (String c0 sep')
               (str_drop (i + String.length (String c0 sep')) s)
      end.
Proof.
  induction s as [| c s IH]; intros cur.
  - cbn. now rewrite string_app_nil_r.
  - cbn [split_go find].
    destruct (String.prefix (String c0 sep') (String c s)) eqn:Hp.
    + cbn [str_take String.length Nat.add str_drop].
      rewrite string_app_nil_r. f_equal.
      replace (S (String.length sep') - 1)%nat
        with (String.length sep') by lia.
      apply split_go_drop.
    + rewrite IH. destruct (find (String c0 sep') s) as [i |];
        cbn [option_map str_take str_drop Nat.add];
        now rewrite string_app_assoc.
Qed.

Lemma split_find (c0 : ascii) (sep' s : string) :
  split (String c0 sep') s
  = match find (String c0 sep') s with
    | None => [s]
    | Some i =>
        str_take i s
        :: split (String c0 sep')
             (str_drop (i + String.length (String c0 sep')) s)
    end.
Proof. unfold split at 1. now rewrite split_go_find. Qed.

(** C4 (as amended): [extract_code] fails, with [IndexError], on every input
    without a fence.  On an input with a fence, also with a single one, it
    does not fail: the block is the text after the leftmost fence, up to the
    next fence or, when there is none, up to the end of the input; the
    result is the block split at its line breaks, without the first
    piece. *)
Theorem extract_code_fails_iff_no_fence (response : string) :
  (count fence response = 0%nat -> extract_code response = Err IndexError)
  /\ ((0 < count fence response)%nat ->
      exists i : nat,
        let after := str_drop (i + 3) response in
        let block :=
          match find fence after with
          | Some j => str_take j after
          | None => after
          end in
        find fence response = Some i
        /\ response = (str_take i response ++ fence ++ after)%string
        /\ (forall k, (k < i)%nat ->
                      String.prefix fence (str_drop k response) = false)
        /\ match find fence after with
           | Some j => after = (block ++ fence ++ str_drop (j + 3) after)%string
           | None => after = block
           end
        /\ extract_code response = Ok (slice_from 1 (split newline block))).
Proof.
  unfold extract_code. pose proof (split_length fence response) as Hlen.
  unfold fence in *. rewrite split_find in Hlen |- *.
  destruct (find "```" response) as [i |] eqn:Hfind.
  - split; [cbn [List.length] in Hlen; intros H0; rewrite H0 in Hlen;
            pose proof (split_length "```" (str_drop (i + 3) response));
            cbn [String.length] in *; lia |].
    intros _. exists i. cbv zeta.
    destruct (find_some _ _ _ Hfind) as [Hdec Hleft].
    cbn [String.length] in Hdec.
    split; [reflexivity |]. split; [exact Hdec |]. split; [exact Hleft |].
    cbn [String.length nth_error]. rewrite split_find.
    destruct (find "```" (str_drop (i + 3) response)) as [j |] eqn:Hnext.
    + split; [| reflexivity].
      destruct (find_some _ _ _ Hnext) as [Hd _]. exact Hd.
    + split; reflexivity.
  - cbn [List.length] in Hlen. split; [reflexivity | lia].
Qed.

Lemma extract_code_fails_iff_no_fence_witness :
  extract_code "plain text, no fences" = Err IndexError.
Proof.
  apply (proj1 (extract_code_fails_iff_no_fence "plain text, no fences")).
  reflexivity.
Defined.

(** C4, as stated, fails: an input with a single fence, so with no closed
    block, is not refused. *)
Lemma extract_code_single_fence :
  (count fence ("x```py" ++ newline ++ "code") < 2)%nat
  /\ extract_code ("x```py" ++ newline ++ "code") = Ok ["code"].
Proof. split; [cbn; lia | reflexivity]. Qed.

(** ** The message queue *)

Lemma plain_not_system (m : pyval) : plain m = true -> role_is_system m = false.
Proof.
  unfold plain, role_is_system.
  destruct (getitem m "role"); [| discriminate].
  now destruct (eq_system p).
Qed.

Lemma user_message_plain (m : pyval) : plain (user_message m) = true.
Proof. reflexivity. Qed.

Lemma system_message_is_system (prompt : string) :
  role_is_system (system_message prompt) = true.
Proof. reflexivity. Qed.

Lemma system_messages_plain (l : list pyval) :
  forallb plain l = true -> system_messages l = Ok [].
Proof.
  induction l as [| m l IH]; [reflexivity |]. cbn [forallb system_messages].
  intros H. apply andb_prop in H as [Hm Hl]. rewrite (IH Hl).
  unfold plain in Hm. destruct (getitem m "role"); [| discriminate].
  cbn. now destruct (eq_system p).
Qed.

Lemma system_messages_good (s : pyval) (l : list pyval) :
  role_is_system s = true -> forallb plain l = true ->
  system_messages (s :: l) = Ok [s].
Proof.
  intros Hs Hl. cbn [system_messages]. rewrite (system_messages_plain _ Hl).
  unfold role_is_system in Hs. destruct (getitem s "role"); [| discriminate].
  cbn. now rewrite Hs.
Qed.

Lemma forallb_skipn {A} (f : A -> bool) (n : nat) :
  forall l, forallb f l = true -> forallb f (skipn n l) = true.
Proof.
  induction n as [| n IH]; intros l H; [exact H |].
  destruct l as [| a l]; [reflexivity |].
  cbn in H |- *. apply andb_prop in H as [_ H]. now apply IH.
Qed.

(** The trailing window [q[-k:]] for [k >= 1]: the last [k] elements. *)
Lemma slice_from_window {A} (k : Z) (q : list A) :
  1 <= k ->
  slice_from (- k) q = skipn (List.length q - Z.to_nat k) q.
Proof.
  intros Hk. unfold slice_from.
  destruct (Z.ltb_spec (- k) 0); [| lia]. f_equal. lia.
Qed.

Lemma slice_from_length {A} (k : Z) (q : list A) :
  1 <= k -> k <= Z.of_nat (List.length q) ->
  Z.of_nat (List.length (slice_from (- k) q)) = k.
Proof.
  intros Hk Hq. rewrite slice_from_window by exact Hk.
  rewrite length_skipn. lia.
Qed.

(** Trimming a queue that holds no system message. *)
Lemma trim_plain (m : Z) (l : list pyval) :
  2 <= m -> forallb plain l = true ->
  exists l', trim m l = Ok l' /\ forallb plain l' = true
             /\ Z.of_nat (List.length l') <= m.
Proof.
  intros Hm Hl. unfold trim.
  destruct (Z.gtb_spec (Z.of_nat (List.length l)) m).
  - rewrite (system_messages_plain _ Hl). cbn [bind app].
    eexists. split; [reflexivity |]. split.
    + rewrite slice_from_window by lia. now apply forallb_skipn.
    + rewrite slice_from_length; lia.
  - exists l. repeat split; [exact Hl | lia].
Qed.

(** Trimming a queue that a system message leads. *)
Lemma trim_good (m : Z) (s : pyval) (l : list pyval) :
  2 <= m -> role_is_system s = true -> forallb plain l = true ->
  exists l', trim m (s :: l) = Ok (s :: l') /\ forallb plain l' = true
             /\ Z.of_nat (List.length (s :: l')) <= m.
Proof.
  intros Hm Hs Hl. unfold trim.
  destruct (Z.gtb_spec (Z.of_nat (List.length (s :: l))) m) as [Hlen | Hlen].
  - rewrite (system_messages_good _ _ Hs Hl). cbn [bind app].
    exists (slice_from (- (m - 1)) (s :: l)).
    split; [reflexivity |].
    assert (Hw : slice_from (- (m - 1)) (s :: l)
                 = skipn (List.length l - Z.to_nat (m - 1)) l).
    { rewrite slice_from_window by lia. cbn [List.length] in Hlen |- *.
      replace (S (List.length l) - Z.to_nat (m - 1))%nat
        with (S (List.length l - Z.to_nat (m - 1))) by lia.
      reflexivity. }
    split.
    + rewrite Hw. now apply forallb_skipn.
    + cbn [List.length]. rewrite Nat2Z.inj_succ.
      rewrite slice_from_length; lia.
  - exists l. repeat split; [exact Hl | lia].
Qed.

Lemma ensure_system_plain (prompt : string) (l : list pyval) :
  forallb plain l = true ->
  ensure_system prompt l = Ok (system_message prompt :: l).
Proof.
  destruct l as [| m l]; [reflexivity |]. cbn [forallb ensure_system].
  intros H. apply andb_prop in H as [Hm _].
  unfold plain in Hm. destruct (getitem m "role"); [| discriminate].
  cbn. now rewrite Hm.
Qed.

Lemma ensure_system_good (prompt : string) (s : pyval) (l : list pyval) :
  role_is_system s = true -> ensure_system prompt (s :: l) = Ok (s :: l).
Proof.
  intros Hs. cbn [ensure_system]. unfold role_is_system in Hs.
  destruct (getitem s "role"); [| discriminate]. cbn. now rewrite Hs.
Qed.

(** What an accepted input without system messages adds to the queue. *)
Lemma normalize_accepted (message : pyval) :
  accepted message = true -> no_system_role message = true ->
  exists items, normalize message = Ok (PList items)
                /\ forallb plain items = true.
Proof.
  destruct message as [| b | z | s | l | d]; try discriminate; cbn.
  - intros _ _. eexists. split; reflexivity.
  - intros Hacc Hns. destruct (forallb isinstance_str l) eqn:Hstr.
    + eexists. split; [reflexivity |].
      apply forallb_forall. intros x Hx. apply in_map_iff in Hx as [y [<- _]].
      reflexivity.
    + cbn in Hacc. rewrite Hacc. cbn. exists l. split; [reflexivity |].
      apply forallb_forall. intros x Hx.
      pose proof (proj1 (forallb_forall _ _) Hacc x Hx) as Hwf.
      pose proof (proj1 (forallb_forall _ _) Hns x Hx) as Hnot.
      destruct x; try discriminate. cbn in Hwf.
      unfold plain, role_is_system, getitem, dict_has in *.
      destruct (dict_get "role" l0); [| discriminate]. exact Hnot.
Qed.

Lemma good_one_system_first (q : list pyval) :
  good q = true -> one_system_first q = true.
Proof.
  destruct q as [| s l]; [reflexivity |]. cbn [good].
  intros H. apply andb_prop in H as [Hs Hl].
  unfold one_system_first, count_system. cbn [filter system_at_head].
  rewrite Hs. cbn [List.length].
  replace (filter role_is_system l) with (@nil pyval); [reflexivity |].
  symmetry. clear Hs. induction l as [| m l IH]; [reflexivity |].
  cbn in Hl |- *. apply andb_prop in Hl as [Hm Hl].
  rewrite (plain_not_system _ Hm). now apply IH.
Qed.

(** [structure_message] on a well-shaped queue: it returns normally, keeps
    the shape, and leaves at most [max_chat_history + 1] messages. *)
Lemma structure_message_good (message : pyval) (st : Adapter) :
  2 <= max_chat_history st ->
  good (messages_queue st) = true ->
  accepted message = true -> no_system_role message = true ->
  exists q', structure_message message st = (Ok q', with_queue st q')
             /\ good q' = true /\ q' <> []
             /\ Z.of_nat (List.length q') <= max_chat_history st + 1.
Proof.
  intros Hm Hgood Hacc Hns.
  destruct (normalize_accepted _ Hacc Hns) as [items [Hnorm Hitems]].
  unfold structure_message. rewrite Hnorm. cbn [py_iter].
  destruct (messages_queue st) as [| s rest]; cbn [app].
  - destruct (trim_plain _ _ Hm Hitems) as [l' [Ht [Hl' Hlen]]].
    rewrite Ht, (ensure_system_plain _ _ Hl').
    eexists. split; [reflexivity |]. cbn [good List.length].
    rewrite Hl'. repeat split; [discriminate | lia].
  - cbn [good] in Hgood. apply andb_prop in Hgood as [Hs Hrest].
    assert (Hall : forallb plain (rest ++ items) = true)
      by (rewrite forallb_app, Hrest, Hitems; reflexivity).
    destruct (trim_good _ _ _ Hm Hs Hall) as [l' [Ht [Hl' Hlen]]].
    rewrite Ht, (ensure_system_good _ _ _ Hs).
    eexists. split; [reflexivity |]. cbn [good].
    rewrite Hs, Hl'. repeat split; [discriminate | lia].
Qed.

Lemma dict_get_set_other (k k' : string) (v : pyval)
    (d : list (string * pyval)) :
  String.eqb k k' = false -> dict_get k (dict_set k' v d) = dict_get k d.
Proof.
  intros Hk. induction d as [| [k0 v0] d IH]; cbn.
  - now rewrite Hk.
  - destruct (String.eqb_spec k' k0) as [-> |]; cbn.
    + now rewrite Hk.
    + destruct (String.eqb k k0); [reflexivity | exact IH].
Qed.

(** [set_system_prompt] on a well-shaped queue: it returns normally and
    keeps the shape; the queue is not empty afterwards. *)
Lemma set_system_prompt_good (prompt : string) (st : Adapter) :
  good (messages_queue st) = true ->
  exists q', set_system_prompt prompt st
             = (Ok tt, with_queue (set_prompt st prompt) q')
             /\ good q' = true /\ q' <> []
             /\ List.length q' = Nat.max 1 (List.length (messages_queue st)).
Proof.
  intros Hgood. unfold set_system_prompt. cbn [set_prompt messages_queue].
  destruct (messages_queue st) as [| s rest].
  - cbn. eexists. split; [reflexivity |]. repeat split. discriminate.
  - cbn [good] in Hgood. apply andb_prop in Hgood as [Hs Hrest].
    cbn [any_system]. unfold role_is_system in Hs.
    destruct s as [| b | z | str | l | d]; try discriminate.
    cbn [getitem] in Hs |- *.
    destruct (dict_get "role" d) as [r |] eqn:Hr; [| discriminate].
    cbn [bind]. rewrite Hs. cbn [setitem].
    eexists. split; [reflexivity |]. cbn [good List.length].
    unfold role_is_system. cbn [getitem].
    rewrite dict_get_set_other by reflexivity. rewrite Hr, Hs, Hrest.
    repeat split. discriminate.
Qed.

Lemma clear_history_good (st : Adapter) :
  good (messages_queue (clear_history st)) = true.
Proof. reflexivity. Qed.

Lemma run_op_max_chat_history (st : Adapter) (o : op) :
  max_chat_history (run_op st o) = max_chat_history st.
Proof.
  destruct o as [message | prompt |]; cbn [run_op]; [| | reflexivity].
  - unfold structure_message.
    destruct (normalize message); [| reflexivity].
    destruct (py_iter p); [| reflexivity].
    destruct (trim _ _); [| reflexivity].
    destruct (ensure_system _ _); reflexivity.
  - unfold set_system_prompt.
    destruct (any_system _) as [[|] |]; [| reflexivity | reflexivity].
    cbn [set_prompt messages_queue].
    destruct (messages_queue st); [reflexivity |].
    destruct (setitem _ _ _); reflexivity.
Qed.

(** One operation keeps the shape and the length bound. *)
Lemma run_op_good (st : Adapter) (o : op) :
  2 <= max_chat_history st ->
  good (messages_queue st) = true ->
  Z.of_nat (List.length (messages_queue st)) <= max_chat_history st + 1 ->
  non_system_op o = true ->
  good (messages_queue (run_op st o)) = true
  /\ Z.of_nat (List.length (messages_queue (run_op st o)))
     <= max_chat_history st + 1.
Proof.
  intros Hm Hgood Hlen Hop.
  destruct o as [message | prompt |]; cbn [run_op non_system_op] in *.
  - apply andb_prop in Hop as [Hacc Hns].
    destruct (structure_message_good _ _ Hm Hgood Hacc Hns)
      as [q' [-> [Hq' [_ Hl]]]].
    cbn. auto.
  - destruct (set_system_prompt_good prompt _ Hgood)
      as [q' [-> [Hq' [_ Hl]]]].
    cbn. split; [exact Hq' | lia].
  - cbn. split; [reflexivity | lia].
Qed.

Lemma run_good (ops : list op) :
  forall st,
    2 <= max_chat_history st ->
    good (messages_queue st) = true ->
    Z.of_nat (List.length (messages_queue st)) <= max_chat_history st + 1 ->
    forallb non_system_op ops = true ->
    good (messages_queue (run ops st)) = true
    /\ Z.of_nat (List.length (messages_queue (run ops st)))
       <= max_chat_history st + 1.
Proof.
  unfold run.
  induction ops as [| o ops IH]; intros st Hm Hgood Hlen Hops; [now split |].
  cbn [forallb fold_left] in *. apply andb_prop in Hops as [Ho Hops].
  destruct (run_op_good _ _ Hm Hgood Hlen Ho) as [Hg1 Hl1].
  rewrite <- (run_op_max_chat_history st o).
  apply IH; rewrite ?run_op_max_chat_history; assumption.
Qed.

(** C6 (as amended): with [max_chat_history >= 2], in every state reached
    from a new adapter by appending accepted inputs that hold no message of
    role system, by setting the system prompt and by clearing the history,
    the queue holds at most one system message and, unless it is empty, that
    message is at index 0. *)
Theorem reachable_one_system_first (prompt : string) (m r : Z)
    (ops : list op) :
  2 <= m ->
  forallb non_system_op ops = true ->
  one_system_first (messages_queue (run ops (init prompt m r))) = true.
Proof.
  intros Hm Hops. apply good_one_system_first.
  apply (run_good ops (init prompt m r)); cbn;
    first [assumption | reflexivity | lia].
Qed.

Lemma reachable_one_system_first_witness :
  one_system_first
    (messages_queue
       (run [Append (PStr "hi"); SetSystemPrompt "be brief";
             Append (PList [PStr "a"; PStr "b"; PStr "c"]); ClearHistory;
             Append (PList [user_message (PStr "again")])]
            (init "You are a helpful assistant." 3 10))) = true.
Proof.
  apply reachable_one_system_first; [lia | reflexivity].
Defined.

(** C6, as stated, fails: a list of well-formed message objects is an
    accepted input, and two of role system both stay in the queue. *)
Lemma two_system_messages_reachable :
  forallb accepted_op
    [Append (PList [system_message "one"; system_message "two"])] = true
  /\ messages_queue
       (run [Append (PList [system_message "one"; system_message "two"])]
            (init "You are a helpful assistant." 10 10))
     = [system_message "one"; system_message "two"]
  /\ one_system_first
       (messages_queue
          (run [Append (PList [system_message "one"; system_message "two"])]
               (init "You are a helpful assistant." 10 10))) = false.
Proof. repeat split. Qed.

(** X12: with [max_chat_history >= 2], in every state reached from a new
    adapter by appends of accepted inputs without system messages, prompt
    changes and history clears, the queue holds at most
    [max_chat_history + 1] messages. *)
Lemma reachable_length_bound (prompt : string) (m r : Z) (ops : list op) :
  2 <= m ->
  forallb non_system_op ops = true ->
  Z.of_nat (List.length (messages_queue (run ops (init prompt m r))))
  <= m + 1.
Proof.
  intros Hm Hops.
  apply (run_good ops (init prompt m r)); cbn;
    first [assumption | reflexivity | lia].
Qed.

(** C5: the queue can end up longer than [max_chat_history].  With a
    maximum of 3, appending three strings to the empty queue is not trimmed
    (3 is not greater than 3) and the system message is inserted afterwards:
    the queue holds 4 messages. *)
Theorem structure_message_exceeds_max_chat_history (prompt : string) (r : Z) :
  structure_message (PList [PStr "a"; PStr "b"; PStr "c"]) (init prompt 3 r)
  = (Ok [system_message prompt; user_message (PStr "a");
         user_message (PStr "b"); user_message (PStr "c")],
     mkAdapter 3 r prompt
       [system_message prompt; user_message (PStr "a");
        user_message (PStr "b"); user_message (PStr "c")])
  /\ Z.of_nat (List.length
                 (messages_queue
                    (snd (structure_message
                            (PList [PStr "a"; PStr "b"; PStr "c"])
                            (init prompt 3 r)))))
     > max_chat_history (init prompt 3 r).
Proof. split; [reflexivity | cbn; lia]. Qed.

(** With a maximum of 1 the trailing window [q[-0:]] is the whole queue, so
    trimming repeats the system message and drops nothing. *)
Lemma structure_message_max_one (prompt : string) (r : Z) :
  messages_queue
    (run [Append (PStr "a"); Append (PStr "b")] (init prompt 1 r))
  = [system_message prompt; system_message prompt;
     user_message (PStr "a"); user_message (PStr "b")].
Proof. reflexivity. Qed.

(** A list that is neither all strings nor all well-formed objects is
    refused with the format error, and the adapter is left as it was. *)
Lemma structure_message_rejects_list (l : list pyval) (st : Adapter) :
  forallb isinstance_str l = false -> forallb well_formed l = false ->
  structure_message (PList l) st = (Err invalid_format, st).
Proof.
  intros Hs Hw. unfold structure_message. cbn [normalize].
  now rewrite Hs, Hw.
Qed.

(** X20: a list that is neither all strings nor all well-formed objects
    makes [get_response] raise the format error in both adapters before any
    remote call: no invocation, no sleep, the adapter as it was. *)
Lemma get_response_rejects_list (client : Client) (l : list pyval)
    (model : string) (st : Adapter) (w : World) :
  forallb isinstance_str l = false -> forallb well_formed l = false ->
  GroqChat.get_response client (PList l) model st w
  = (Err invalid_format, st, w)
  /\ OpenAiChat.get_response client (PList l) model st w
     = (Err invalid_format, st, w).
Proof.
  intros Hs Hw.
  unfold GroqChat.get_response, OpenAiChat.get_response.
  now rewrite (structure_message_rejects_list l st Hs Hw).
Qed.

(** C8: a value that is neither a string nor a list is not checked at all.
    A bare message object passes [structure_message] without an error once
    the queue holds its system message, and its keys are appended to the
    queue as strings; on a new adapter the same call raises [TypeError] from
    the subscript of the first queue element, after the queue was extended;
    a bare number raises [TypeError] from [extend].  None of them raises the
    format error. *)
Theorem structure_message_bare_dict (prompt : string) (r : Z) :
  structure_message
    (PDict [("role", PStr "user"); ("content", PStr "hi")])
    (clear_history (init prompt 10 r))
  = (Ok [system_message prompt; PStr "role"; PStr "content"],
     mkAdapter 10 r prompt
       [system_message prompt; PStr "role"; PStr "content"])
  /\ structure_message
       (PDict [("role", PStr "user"); ("content", PStr "hi")])
       (init prompt 10 r)
     = (Err TypeError, mkAdapter 10 r prompt [PStr "role"; PStr "content"])
  /\ structure_message (PInt 5) (clear_history (init prompt 10 r))
     = (Err TypeError, clear_history (init prompt 10 r)).
Proof. repeat split. Qed.

(** C10, as stated, fails: on a queue longer than [max_chat_history] the
    empty append trims, and an existing message is lost. *)
Lemma structure_message_empty_list_trims :
  snd (structure_message (PList [PStr "a"; PStr "b"; PStr "c"])
         (init "s" 3 10))
  = mkAdapter 3 10 "s"
      [system_message "s"; user_message (PStr "a"); user_message (PStr "b");
       user_message (PStr "c")]
  /\ structure_message (PList [])
       (mkAdapter 3 10 "s"
          [system_message "s"; user_message (PStr "a");
           user_message (PStr "b"); user_message (PStr "c")])
     = (Ok [system_message "s"; user_message (PStr "b");
            user_message (PStr "c")],
        mkAdapter 3 10 "s"
          [system_message "s"; user_message (PStr "b");
           user_message (PStr "c")]).
Proof. split; reflexivity. Qed.

(** ** [get_response] *)

Lemma structure_message_max_retry (message : pyval) (st : Adapter) :
  max_retry (snd (structure_message message st)) = max_retry st.
Proof.
  unfold structure_message.
  destruct (normalize message); [| reflexivity].
  destruct (py_iter p); [| reflexivity].
  destruct (trim _ _); [| reflexivity].
  destruct (ensure_system _ _); reflexivity.
Qed.

(** A call whose remote invocation succeeds at once. *)
Lemma get_response_success (client : Client) (message : pyval)
    (model : string) (st st1 : Adapter) (w : World) (q : list pyval)
    (content : string) :
  structure_message message st = (Ok q, st1) ->
  client (calls w) model (messages_queue st1) = Ok content ->
  let st2 :=
    with_queue st1 (messages_queue st1 ++ [assistant_message content]) in
  GroqChat.get_response client message model st w
  = (Ok (Some content), st2, tick w)
  /\ OpenAiChat.get_response client message model st w
     = (Ok (Some content), st2, tick w).
Proof.
  intros Hsm Hc st2. subst st2.
  unfold GroqChat.get_response, OpenAiChat.get_response,
    GroqChat.retry_with_exponential_backoff,
    OpenAiChat.retry_with_exponential_backoff.
  rewrite Hsm.
  rewrite !(retry_success _ _
              (fun n => client n model (messages_queue st1)) (room w) 0 w
              content Hc).
  split; reflexivity.
Qed.

(** X19: the Groq [get_response] never returns [None]: it returns a reply
    text or raises. *)
Lemma groq_get_response_reply_or_raise (client : Client) (message : pyval)
    (model : string) (st : Adapter) (w : World) :
  fst (fst (GroqChat.get_response client message model st w)) <> Ok None.
Proof.
  unfold GroqChat.get_response.
  destruct (structure_message message st) as [[q | e] st1];
    [| discriminate].
  destruct (GroqChat.retry_with_exponential_backoff _ _ _ _) as [[c | e] w1];
    discriminate.
Qed.

(** With a remote call that only ever fails with [openai.APIError], a budget
    below 1024 and room for the nested calls, the OpenAI method returns
    [None] once the budget is used up: the caller gets no reply and no
    exception, and the user message stays in the queue. *)
Lemma openai_get_response_none (client : Client) (message : pyval)
    (model : string) (st st1 : Adapter) (w : World) (q : list pyval)
    (detail : nat -> string) :
  structure_message message st = (Ok q, st1) ->
  (forall n, client n model (messages_queue st1)
             = Err (APIError (detail n))) ->
  0 <= max_retry st < 1024 -> max_retry st < Z.of_nat (room w) ->
  OpenAiChat.get_response client message model st w
  = (Ok None, st1, after_attempts (Z.to_nat (max_retry st)) 0 w).
Proof.
  intros Hsm Hfail HR Hrm. unfold OpenAiChat.get_response. rewrite Hsm.
  unfold OpenAiChat.retry_with_exponential_backoff.
  pose proof (structure_message_max_retry message st) as Hmax.
  rewrite Hsm in Hmax. cbn [snd] in Hmax. rewrite Hmax.
  rewrite (retry_fail_until_exhausted is_APIError (max_retry st)
             (fun n => client n model (messages_queue st1))
             (fun i => APIError (detail (calls w + i)%nat))
             (Z.to_nat (max_retry st)) (room w) 0 w).
  - reflexivity.
  - intros i _. split; [apply Hfail | reflexivity].
  - lia.
  - lia.
  - lia.
Qed.

(** C1: with the default budget of 10 retries and a remote call that keeps
    failing with [openai.APIError], the OpenAI [get_response] returns
    [None] after 11 invocations and 10 sleeps; the Groq method raises the
    error on the same input. *)
Theorem openai_get_response_swallows_api_error :
  OpenAiChat.get_response (fun _ _ _ => Err (APIError "rate limit"))
    (PStr "hi") "gpt-4o-mini" (init "You are a helpful assistant." 10 10)
    world0
  = (Ok None,
     mkAdapter 10 10 "You are a helpful assistant."
       [system_message "You are a helpful assistant.";
        user_message (PStr "hi")],
     mkWorld 11 [1; 2; 3; 4; 5; 6; 7; 8; 9; 10])
  /\ GroqChat.get_response (fun _ _ _ => Err (APIError "rate limit"))
       (PStr "hi") "gpt-4o-mini" (init "You are a helpful assistant." 10 10)
       world0
     = (Err (APIError "rate limit"),
        mkAdapter 10 10 "You are a helpful assistant."
          [system_message "You are a helpful assistant.";
           user_message (PStr "hi")],
        mkWorld 11 [1; 2; 3; 4; 5; 6; 7; 8; 9; 10]).
Proof. split; reflexivity. Qed.

(** The replies of the scenario: each is the remote call's answer to the
    queue sent with its request. *)
Definition scenario_reply
    (reply : nat -> string -> list pyval -> string) (prompt model : string)
    (i : nat) : string :=
  let r1 :=
    reply 0%nat model [system_message prompt; user_message (PStr "hi")] in
  let r2 :=
    reply 1%nat model
      [system_message prompt; assistant_message r1;
       user_message (PStr "again")] in
  let r3 :=
    reply 2%nat model
      [system_message prompt; assistant_message r2;
       user_message (PStr "third")] in
  match i with
  | 1%nat => r1
  | 2%nat => r2
  | _ => r3
  end.

Lemma three_calls_queue
    (get_response : Client -> pyval -> string -> Adapter -> World ->
                    result (option string) * Adapter * World)
    (reply : nat -> string -> list pyval -> string) (prompt model : string)
    (r : Z) :
  (forall message st w q st1,
      structure_message message st = (Ok q, st1) ->
      get_response (fun n m msgs => Ok (reply n m msgs)) message model st w
      = (Ok (Some (reply (calls w) model (messages_queue st1))),
         with_queue st1
           (messages_queue st1
            ++ [assistant_message (reply (calls w) model (messages_queue st1))]),
         tick w)) ->
  three_calls get_response (fun n m msgs => Ok (reply n m msgs)) model
    (init prompt 3 r) world0
  = (Ok (Some (scenario_reply reply prompt model 3)),
     mkAdapter 3 r prompt
       [system_message prompt;
        assistant_message (scenario_reply reply prompt model 2);
        user_message (PStr "third");
        assistant_message (scenario_reply reply prompt model 3)],
     mkWorld 3 []).
Proof.
  intros Hstep. unfold three_calls.
  erewrite Hstep by reflexivity. cbn.
  erewrite Hstep by reflexivity. cbn.
  erewrite Hstep by reflexivity. reflexivity.
Qed.

(** C2 (as amended): with [max_chat_history = 3] and a remote call that
    answers every request, after the three calls the queue has length 4: the
    system message at index 0, then the second reply, the user message
    ["third"] and the third reply.  The reply of a call is appended after
    the trimming of that call.  Both adapters behave so. *)
Theorem three_calls_final_queue
    (reply : nat -> string -> list pyval -> string) (prompt model : string)
    (r : Z) :
  let client : Client := fun n m msgs => Ok (reply n m msgs) in
  let final get_response :=
    messages_queue
      (snd (fst (three_calls get_response client model (init prompt 3 r)
                   world0))) in
  final OpenAiChat.get_response
  = [system_message prompt;
     assistant_message (scenario_reply reply prompt model 2);
     user_message (PStr "third");
     assistant_message (scenario_reply reply prompt model 3)]
  /\ List.length (final OpenAiChat.get_response) = 4%nat
  /\ nth_error (final OpenAiChat.get_response) 0
     = Some (system_message prompt)
  /\ final GroqChat.get_response = final OpenAiChat.get_response.
Proof.
  intros client final. subst client final. cbv beta.
  rewrite (three_calls_queue OpenAiChat.get_response reply prompt model r).
  2: { intros message st w q st1 Hsm.
       exact (proj2 (get_response_success _ message model st st1 w q _
                       Hsm eq_refl)). }
  rewrite (three_calls_queue GroqChat.get_response reply prompt model r).
  2: { intros message st w q st1 Hsm.
       exact (proj1 (get_response_success _ message model st st1 w q _
                       Hsm eq_refl)). }
  repeat split.
Qed.

(** C2, as stated, fails: the final queue does not have length 3. *)
Lemma three_calls_length_not_three :
  List.length
    (messages_queue
       (snd (fst (three_calls OpenAiChat.get_response
                    (fun _ _ _ => Ok "ok") "gpt-4o-mini"
                    (init "You are a helpful assistant." 3 10) world0))))
  <> 3%nat.
Proof. cbn. discriminate. Qed.

(** * Further properties of the code *)

(** ** The retry executor on an arbitrary remote call *)

Lemma retry_within_budget {A} (handles : exn -> bool) (R : Z)
    (func : nat -> result A) (w : World) :
  run_within_budget R w (snd (retry handles R func (room w) 0 w)).
Proof.
  destruct (retry_trace handles R func (room w) 0 w) as [n [Hw [Hn _]]].
  rewrite Hw, after_attempts_zero. unfold run_within_budget.
  cbn [calls sleeps].
  replace (calls w + n + 1 - calls w - 1)%nat with n by lia.
  repeat split; lia.
Qed.

(** X1: neither executor invokes the remote call more than
    [max 0 max_retry + 1] times or fewer than once; it sleeps exactly once
    between two invocations, never after the last one, and the exponents of
    the delays are 1, 2, 3, ... in order. *)
Theorem retry_attempts_bounded {A} (st : Adapter) (func : nat -> result A)
    (w : World) :
  run_within_budget (max_retry st) w
    (snd (GroqChat.retry_with_exponential_backoff st func 0 w))
  /\ run_within_budget (max_retry st) w
       (snd (OpenAiChat.retry_with_exponential_backoff st func 0 w)).
Proof. split; apply retry_within_budget. Qed.










(** ** [structure_message] on arbitrary inputs and states *)

Lemma getitem_error (x : pyval) (k : string) (e : exn) :
  getitem x k = Err e -> e = TypeError \/ e = KeyError k.
Proof.
  destruct x; cbn; try (intros H; injection H as <-; now left).
  destruct (dict_get k l); [discriminate |].
  intros H. injection H as <-. now right.
Qed.

Lemma system_messages_error (q : list pyval) (e : exn) :
  system_messages q = Err e -> e = TypeError \/ e = KeyError "role".
Proof.
  induction q as [| m q IH]; cbn [system_messages]; [discriminate |].
  destruct (getitem m "role") eqn:Hg; cbn [bind].
  - destruct (system_messages q); cbn [bind]; [discriminate |].
    intros H. injection H as <-. now apply IH.
  - intros H. injection H as <-. now apply getitem_error in Hg.
Qed.

Lemma trim_error (m : Z) (q : list pyval) (e : exn) :
  trim m q = Err e -> e = TypeError \/ e = KeyError "role".
Proof.
  unfold trim. destruct (_ >? _); [| discriminate].
  destruct (system_messages q) eqn:Hs; cbn [bind]; [discriminate |].
  intros H. injection H as <-. now apply system_messages_error in Hs.
Qed.

Lemma ensure_system_error (prompt : string) (q : list pyval) (e : exn) :
  ensure_system prompt q = Err e -> e = TypeError \/ e = KeyError "role".
Proof.
  destruct q as [| m0 q]; cbn [ensure_system]; [discriminate |].
  destruct (getitem m0 "role") eqn:Hg; cbn [bind]; [discriminate |].
  intros H. injection H as <-. now apply getitem_error in Hg.
Qed.

Lemma py_iter_error (x : pyval) (e : exn) : py_iter x = Err e -> e = TypeError.
Proof. destruct x; cbn; congruence. Qed.

Lemma normalize_error (message : pyval) (e : exn) :
  normalize message = Err e ->
  e = invalid_format
  /\ exists l, message = PList l /\ forallb isinstance_str l = false
               /\ forallb well_formed l = false.
Proof.
  destruct message; cbn; try discriminate.
  destruct (forallb isinstance_str l) eqn:Hs; [discriminate |].
  destruct (forallb well_formed l) eqn:Hw; cbn; [discriminate |].
  intros H. injection H as <-. split; [reflexivity |]. now exists l.
Qed.

(** The exceptions of [structure_message], by the statement that raises. *)
Lemma structure_message_errors (message : pyval) (st : Adapter) (e : exn) :
  fst (structure_message message st) = Err e ->
  (normalize message = Err e /\ snd (structure_message message st) = st)
  \/ (exists m', normalize message = Ok m'
                 /\ (e = TypeError \/ e = KeyError "role")).
Proof.
  unfold structure_message.
  destruct (normalize message) as [m' | e0] eqn:Hn.
  - intros H. right. exists m'. split; [reflexivity |]. revert H.
    destruct (py_iter m') eqn:Hi; cbn [fst].
    + destruct (trim _ _) eqn:Ht; cbn [fst].
      * destruct (ensure_system _ _) eqn:He; cbn [fst]; [discriminate |].
        intros H. injection H as <-. now apply ensure_system_error in He.
      * intros H. injection H as <-. now apply trim_error in Ht.
    + intros H. injection H as <-. left. now apply py_iter_error in Hi.
  - cbn. intros H. injection H as <-. now left.
Qed.

(** X5: the only exceptions [structure_message] raises are the format
    [ValueError], [TypeError] and [KeyError] for the key [role]. *)
Theorem structure_message_error_kinds (message : pyval) (st : Adapter)
    (e : exn) :
  fst (structure_message message st) = Err e ->
  e = invalid_format \/ e = TypeError \/ e = KeyError "role".
Proof.
  intros H. destruct (structure_message_errors _ _ _ H)
    as [[Hn _] | [m' [_ [He | He]]]]; auto.
  left. now apply normalize_error in Hn.
Qed.

Lemma structure_message_error_kinds_witness :
  invalid_format = invalid_format \/ invalid_format = TypeError
  \/ invalid_format = KeyError "role".
Proof.
  apply (structure_message_error_kinds
           (PList [PStr "a"; user_message (PStr "b")]) (init "s" 10 10)).
  reflexivity.
Defined.

(** X6: [structure_message] raises the format error exactly for a list that
    is neither made of strings only nor of objects with a role and a content
    only; the adapter is then left as it was. *)
Theorem structure_message_format_error_iff (message : pyval) (st : Adapter) :
  (fst (structure_message message st) = Err invalid_format
   <-> exists l, message = PList l /\ forallb isinstance_str l = false
                 /\ forallb well_formed l = false)
  /\ (fst (structure_message message st) = Err invalid_format ->
      snd (structure_message message st) = st).
Proof.
  assert (Hfwd : fst (structure_message message st) = Err invalid_format ->
                 normalize message = Err invalid_format
                 /\ snd (structure_message message st) = st).
  { intros H. destruct (structure_message_errors _ _ _ H)
      as [Hn | [m' [_ [He | He]]]]; [exact Hn | discriminate | discriminate]. }
  split; [split |].
  - intros H. apply Hfwd in H as [Hn _]. now apply normalize_error in Hn.
  - intros [l [-> [Hs Hw]]].
    now rewrite (structure_message_rejects_list l st Hs Hw).
  - intros H. now apply Hfwd in H.
Qed.

Lemma structure_message_format_error_iff_witness :
  snd (structure_message (PList [PStr "a"; PInt 3]) (init "s" 10 10))
  = init "s" 10 10.
Proof.
  apply (proj2 (structure_message_format_error_iff
                  (PList [PStr "a"; PInt 3]) (init "s" 10 10))).
  reflexivity.
Defined.

(** X7: whenever [structure_message] returns, the queue it returns is the
    adapter's queue, it is not empty, and its first message has the role
    system. *)
Theorem structure_message_head_is_system (message : pyval) (st st' : Adapter)
    (q' : list pyval) :
  structure_message message st = (Ok q', st') ->
  messages_queue st' = q'
  /\ exists m0 rest, q' = m0 :: rest /\ role_is_system m0 = true.
Proof.
  unfold structure_message.
  destruct (normalize message) as [m' |]; [| discriminate].
  destruct (py_iter m') as [items |]; [| discriminate].
  destruct (trim _ _) as [q2 |]; [| discriminate].
  destruct (ensure_system (system_prompt st) q2) as [q3 |] eqn:He;
    [| discriminate].
  intros H. injection H as <- <-. split; [reflexivity |].
  destruct q2 as [| m0 rest]; cbn [ensure_system] in He.
  - injection He as <-. eauto.
  - unfold role_is_system.
    destruct (getitem m0 "role") as [r |] eqn:Hr; cbn [bind] in He;
      [| discriminate].
    injection He as <-. destruct (eq_system r) eqn:Hsys; cbn [negb].
    + exists m0, rest. now rewrite Hr.
    + eauto.
Qed.

Lemma structure_message_head_is_system_witness :
  exists m0 rest,
    [system_message "s"; user_message (PStr "hi")] = m0 :: rest
    /\ role_is_system m0 = true.
Proof.
  apply (structure_message_head_is_system (PStr "hi") (init "s" 10 10)
           (mkAdapter 10 10 "s" [system_message "s"; user_message (PStr "hi")])).
  reflexivity.
Defined.

(** ** The sliding window *)

(** On a queue led by its system message, the call keeps that message and
    the last [max_chat_history - 1] of the other messages, old and new. *)
Lemma structure_message_on_system_queue (message : pyval) (st : Adapter)
    (s : pyval) (rest items : list pyval) :
  2 <= max_chat_history st ->
  messages_queue st = s :: rest ->
  role_is_system s = true -> forallb plain rest = true ->
  normalize message = Ok (PList items) -> forallb plain items = true ->
  let others := rest ++ items in
  let q' :=
    s :: skipn (List.length others - Z.to_nat (max_chat_history st - 1))
           others in
  structure_message message st = (Ok q', with_queue st q').
Proof.
  intros Hm Hq Hs Hrest Hnorm Hitems others q'. subst others q'.
  unfold structure_message. rewrite Hnorm, Hq. cbn [py_iter app].
  assert (Hall : forallb plain (rest ++ items) = true)
    by (rewrite forallb_app, Hrest, Hitems; reflexivity).
  unfold trim.
  destruct (Z.gtb_spec (Z.of_nat (List.length (s :: rest ++ items)))
              (max_chat_history st)) as [Hlen | Hlen];
    cbn [List.length] in Hlen.
  - rewrite (system_messages_good _ _ Hs Hall). cbn [bind app].
    rewrite slice_from_window by lia. cbn [List.length].
    replace (S (List.length (rest ++ items))
             - Z.to_nat (max_chat_history st - 1))%nat
      with (S (List.length (rest ++ items)
               - Z.to_nat (max_chat_history st - 1))) by lia.
    cbn [skipn]. now rewrite (ensure_system_good _ _ _ Hs).
  - replace (List.length (rest ++ items)
             - Z.to_nat (max_chat_history st - 1))%nat with 0%nat by lia.
    cbn [skipn]. now rewrite (ensure_system_good _ _ _ Hs).
Qed.

(** C10 (as amended): an empty list is accepted: the call never raises the
    format error.  On a queue no longer than [max_chat_history] the messages
    and their order are unchanged, and the only effect is a system message
    put at index 0 when the queue is empty or its first message has a role
    other than system; when the first entry has no role the call raises
    [TypeError] or [KeyError] and the queue stays as it was.  On a longer
    queue the call trims like any other append: an append of messages has
    the outcome of the empty append on the queue already extended with them,
    and on a queue led by its only system message, with
    [max_chat_history >= 2], the system message and the last
    [max_chat_history - 1] other messages remain. *)
Theorem structure_message_empty_list (st : Adapter) :
  let q := messages_queue st in
  let sys := system_message (system_prompt st) in
  fst (structure_message (PList []) st) <> Err invalid_format
  /\ (Z.of_nat (List.length q) <= max_chat_history st ->
      structure_message (PList []) st
      = match q with
        | [] => (Ok [sys], with_queue st [sys])
        | m0 :: _ =>
            match getitem m0 "role" with
            | Ok role =>
                if eq_system role then (Ok q, with_queue st q)
                else (Ok (sys :: q), with_queue st (sys :: q))
            | Err e => (Err e, with_queue st q)
            end
        end)
  /\ (forall message items,
        normalize message = Ok (PList items) ->
        structure_message message st
        = structure_message (PList []) (with_queue st (q ++ items)))
  /\ (forall s rest,
        max_chat_history st < Z.of_nat (List.length q) ->
        2 <= max_chat_history st ->
        q = s :: rest -> role_is_system s = true ->
        forallb plain rest = true ->
        let kept :=
          s :: skipn (List.length rest - Z.to_nat (max_chat_history st - 1))
                 rest in
        structure_message (PList []) st = (Ok kept, with_queue st kept)).
Proof.
  intros q sys. subst q sys. split; [| split; [| split]].
  - intros H.
    assert (Hf : fst (structure_message (PList []) st) = Err invalid_format
                 -> False).
    { unfold structure_message. cbn [normalize forallb map py_iter].
      destruct (trim _ _) as [q2 |] eqn:Ht; cbn [fst].
      - destruct (ensure_system _ _) as [q3 |] eqn:He; cbn [fst];
          [discriminate |].
        intros E. injection E as ->.
        apply ensure_system_error in He as [He | He]; discriminate.
      - intros E. injection E as ->.
        apply trim_error in Ht as [Ht | Ht]; discriminate. }
    exact (Hf H).
  - intros Hlen.
    unfold structure_message. cbn [normalize forallb map py_iter].
    rewrite app_nil_r. unfold trim.
    destruct (Z.gtb_spec (Z.of_nat (List.length (messages_queue st)))
                (max_chat_history st)); [lia |].
    destruct (messages_queue st) as [| m0 rest] eqn:Hq; [reflexivity |].
    unfold ensure_system.
    destruct (getitem m0 "role") as [role | e]; cbn [bind];
      [| reflexivity].
    now destruct (eq_system role).
  - intros message items Hnorm.
    unfold structure_message. rewrite Hnorm.
    cbn [normalize forallb map py_iter with_queue messages_queue
           max_chat_history system_prompt max_retry].
    rewrite app_nil_r.
    destruct (trim _ _) as [q2 |]; [| reflexivity].
    destruct (ensure_system _ _); reflexivity.
  - intros s rest Hlen Hm Hq Hs Hrest kept. subst kept.
    rewrite (structure_message_on_system_queue (PList []) st s rest [])
      by (first [assumption | reflexivity]).
    now rewrite app_nil_r.
Qed.

Lemma structure_message_empty_list_witness :
  structure_message (PList [])
    (mkAdapter 3 10 "s" [system_message "s"; user_message (PStr "hi")])
  = (Ok [system_message "s"; user_message (PStr "hi")],
     mkAdapter 3 10 "s" [system_message "s"; user_message (PStr "hi")]).
Proof.
  apply (proj1 (proj2 (structure_message_empty_list
           (mkAdapter 3 10 "s"
              [system_message "s"; user_message (PStr "hi")])))).
  cbn. lia.
Defined.

(** X8: on a queue led by its system message, [structure_message] keeps that
    message as it is and, after it, the last [max_chat_history - 1] of the
    other messages, those of the queue followed by the new ones, in their
    order ([max_chat_history >= 2], no system message among them). *)
Theorem structure_message_window (message : pyval) (st : Adapter)
    (s : pyval) (rest items : list pyval) :
  2 <= max_chat_history st ->
  messages_queue st = s :: rest ->
  role_is_system s = true -> forallb plain rest = true ->
  normalize message = Ok (PList items) -> forallb plain items = true ->
  fst (structure_message message st)
  = Ok (s :: skipn (List.length (rest ++ items)
                    - Z.to_nat (max_chat_history st - 1))
               (rest ++ items)).
Proof.
  intros Hm Hq Hs Hrest Hnorm Hitems.
  now rewrite (structure_message_on_system_queue message st s rest items).
Qed.

Lemma structure_message_window_witness :
  fst (structure_message (PList [PStr "c"; PStr "d"])
         (mkAdapter 3 10 "s"
            [system_message "s"; user_message (PStr "a");
             user_message (PStr "b")]))
  = Ok [system_message "s"; user_message (PStr "c"); user_message (PStr "d")].
Proof.
  apply (structure_message_window (PList [PStr "c"; PStr "d"])
           (mkAdapter 3 10 "s"
              [system_message "s"; user_message (PStr "a");
               user_message (PStr "b")])
           (system_message "s")
           [user_message (PStr "a"); user_message (PStr "b")]
           [user_message (PStr "c"); user_message (PStr "d")]);
    first [reflexivity | cbn; lia].
Defined.

(** X9: once a system message leads the queue, [structure_message] leaves at
    most [max_chat_history] messages, however long the queue was and however
    many messages are appended ([max_chat_history >= 2], no system message
    among them). *)
Theorem structure_message_bounded_after_system (message : pyval)
    (st : Adapter) (s : pyval) (rest : list pyval) :
  2 <= max_chat_history st ->
  messages_queue st = s :: rest ->
  role_is_system s = true -> forallb plain rest = true ->
  accepted message = true -> no_system_role message = true ->
  Z.of_nat (List.length (messages_queue (snd (structure_message message st))))
  <= max_chat_history st.
Proof.
  intros Hm Hq Hs Hrest Hacc Hns.
  destruct (normalize_accepted _ Hacc Hns) as [items [Hnorm Hitems]].
  rewrite (structure_message_on_system_queue message st s rest items)
    by assumption.
  cbn [snd with_queue messages_queue List.length].
  rewrite length_skipn. lia.
Qed.

Lemma structure_message_bounded_after_system_witness :
  Z.of_nat
    (List.length
       (messages_queue
          (snd (structure_message (PList [PStr "b"; PStr "c"; PStr "d"])
                  (mkAdapter 3 10 "s"
                     [system_message "s"; user_message (PStr "a")])))))
  <= max_chat_history
       (mkAdapter 3 10 "s" [system_message "s"; user_message (PStr "a")]).
Proof.
  apply (structure_message_bounded_after_system
           (PList [PStr "b"; PStr "c"; PStr "d"])
           (mkAdapter 3 10 "s" [system_message "s"; user_message (PStr "a")])
           (system_message "s") [user_message (PStr "a")]);
    first [reflexivity | cbn; lia].
Defined.

(** X10: on the empty queue, [structure_message] puts a system message made
    from the current prompt in front of the new messages; it keeps all of
    them when they are at most [max_chat_history], and otherwise the last
    [max_chat_history - 1] of them ([max_chat_history >= 2], no system
    message among them). *)
Theorem structure_message_first_call (message : pyval) (st : Adapter)
    (items : list pyval) :
  2 <= max_chat_history st ->
  messages_queue st = [] ->
  normalize message = Ok (PList items) -> forallb plain items = true ->
  fst (structure_message message st)
  = Ok (system_message (system_prompt st)
        :: if Z.of_nat (List.length items) >? max_chat_history st
           then skipn (List.length items
                       - Z.to_nat (max_chat_history st - 1)) items
           else items).
Proof.
  intros Hm Hq Hnorm Hitems.
  unfold structure_message. rewrite Hnorm, Hq. cbn [py_iter app].
  unfold trim.
  destruct (Z.gtb_spec (Z.of_nat (List.length items)) (max_chat_history st)).
  - rewrite (system_messages_plain _ Hitems). cbn [bind app].
    rewrite slice_from_window by lia.
    rewrite ensure_system_plain by now apply forallb_skipn.
    reflexivity.
  - now rewrite (ensure_system_plain _ _ Hitems).
Qed.

Lemma structure_message_first_call_witness :
  fst (structure_message (PList [PStr "a"; PStr "b"; PStr "c"; PStr "d"])
         (init "s" 3 10))
  = Ok [system_message "s"; user_message (PStr "c"); user_message (PStr "d")].
Proof.
  apply (structure_message_first_call
           (PList [PStr "a"; PStr "b"; PStr "c"; PStr "d"]) (init "s" 3 10)
           [user_message (PStr "a"); user_message (PStr "b");
            user_message (PStr "c"); user_message (PStr "d")]);
    first [reflexivity | cbn; lia].
Defined.

Lemma forallb_str_user_messages (ss : list string) :
  ss <> [] ->
  forallb isinstance_str (map (fun s => user_message (PStr s)) ss) = false.
Proof. destruct ss; [congruence | reflexivity]. Qed.

Lemma forallb_wf_user_messages (ss : list string) :
  forallb well_formed (map (fun s => user_message (PStr s)) ss) = true.
Proof. induction ss as [| s ss IH]; [reflexivity | exact IH]. Qed.

(** X11: the three input forms agree.  A string is handled as the list that
    holds it, and a list of strings as the list of the user message objects
    made from them: the results and the adapters left behind are equal. *)
Theorem structure_message_input_forms (ss : list string) (s : string)
    (st : Adapter) :
  structure_message (PStr s) st = structure_message (PList [PStr s]) st
  /\ structure_message (PList (map PStr ss)) st
     = structure_message
         (PList (map (fun x => user_message (PStr x)) ss)) st.
Proof.
  split; [reflexivity |].
  unfold structure_message.
  assert (Hn : normalize (PList (map PStr ss))
               = normalize (PList (map (fun x => user_message (PStr x)) ss))).
  { cbn [normalize].
    assert (Hstr : forallb isinstance_str (map PStr ss) = true)
      by (induction ss as [| x ss IH]; [reflexivity | exact IH]).
    rewrite Hstr, map_map.
    destruct ss as [| x ss]; [reflexivity |].
    rewrite forallb_str_user_messages by discriminate.
    now rewrite forallb_wf_user_messages. }
  now rewrite Hn.
Qed.

Lemma reachable_length_bound_witness :
  Z.of_nat
    (List.length
       (messages_queue
          (run [Append (PList [PStr "a"; PStr "b"; PStr "c"]);
                SetSystemPrompt "t"; Append (PStr "d")]
               (init "s" 3 10))))
  <= 3 + 1.
Proof.
  apply reachable_length_bound; [lia | reflexivity].
Defined.

(** ** [set_system_prompt] and [clear_history] *)

Lemma dict_set_set (k : string) (v1 v2 : pyval) (d : list (string * pyval)) :
  dict_set k v2 (dict_set k v1 d) = dict_set k v2 d.
Proof.
  induction d as [| [k' v'] d IH]; cbn.
  - now rewrite String.eqb_refl.
  - destruct (String.eqb k k') eqn:Hk; cbn; rewrite Hk; [reflexivity |].
    now rewrite IH.
Qed.

Lemma dict_get_set_same (k : string) (v : pyval) (d : list (string * pyval)) :
  dict_get k (dict_set k v d) = Some v.
Proof.
  induction d as [| [k' v'] d IH]; cbn.
  - now rewrite String.eqb_refl.
  - destruct (String.eqb k k') eqn:Hk; cbn; now rewrite Hk.
Qed.

Lemma any_system_true_head (q : list pyval) :
  any_system q = Ok true ->
  exists d rest r, q = PDict d :: rest /\ dict_get "role" d = Some r.
Proof.
  destruct q as [| m0 rest]; cbn [any_system]; [discriminate |].
  destruct m0; cbn [getitem bind]; try discriminate.
  destruct (dict_get "role" l) as [r |] eqn:Hr; [| discriminate].
  intros _. now exists l, rest, r.
Qed.

Lemma any_system_plain (q : list pyval) :
  forallb plain q = true -> any_system q = Ok false.
Proof.
  induction q as [| m q IH]; [reflexivity |]. cbn [forallb any_system].
  intros H. apply andb_prop in H as [Hm Hq]. unfold plain in Hm.
  destruct (getitem m "role") as [r |]; [| discriminate]. cbn [bind].
  destruct (eq_system r); [discriminate | now apply IH].
Qed.

(** X13: setting the system prompt twice is the same as setting the second
    prompt alone, on every adapter: same outcome, same queue, same stored
    prompt. *)
Theorem set_system_prompt_last_wins (p1 p2 : string) (st : Adapter) :
  set_system_prompt p2 (snd (set_system_prompt p1 st))
  = set_system_prompt p2 st.
Proof.
  unfold set_system_prompt at 2 3. cbn [set_prompt messages_queue].
  destruct (any_system (messages_queue st)) as [[|] | e] eqn:Hany.
  - destruct (any_system_true_head _ Hany) as [d [rest [r [Hq Hr]]]].
    rewrite Hq in Hany |- *. cbn [setitem snd].
    unfold set_system_prompt.
    cbn [set_prompt with_queue messages_queue max_chat_history max_retry
           system_prompt].
    assert (Hany' : any_system (PDict (dict_set "content" (PStr p1) d) :: rest)
                    = Ok true).
    { cbn [any_system getitem] in Hany |- *.
      rewrite dict_get_set_other by reflexivity. exact Hany. }
    rewrite Hany'. cbn [setitem]. now rewrite dict_set_set.
  - cbn [snd]. unfold set_system_prompt.
    cbn [set_prompt with_queue messages_queue max_chat_history max_retry
           system_prompt any_system getitem system_message dict_get
           String.eqb Ascii.eqb Bool.eqb bind eq_system].
    reflexivity.
  - cbn [snd]. unfold set_system_prompt.
    cbn [set_prompt messages_queue max_chat_history max_retry system_prompt].
    now rewrite Hany.
Qed.

(** X14: what [set_system_prompt] does to the queue.  Without a system
    message in a queue of messages that all have a role, it inserts one made
    from the prompt at index 0 and leaves the rest as it is.  With a system
    message at index 0 whose value occurs in no other entry of the queue (so
    that no other entry is or holds the same dict object), it keeps the
    queue and
    overwrites that message's content: reading its content gives the prompt,
    reading any other key gives what it gave before.  In both cases the
    prompt is stored. *)
Theorem set_system_prompt_effect (prompt : string) (st : Adapter) :
  (forallb plain (messages_queue st) = true ->
   set_system_prompt prompt st
   = (Ok tt,
      mkAdapter (max_chat_history st) (max_retry st) prompt
        (system_message prompt :: messages_queue st)))
  /\ (forall d rest,
        messages_queue st = PDict d :: rest ->
        role_is_system (PDict d) = true ->
        Forall (fun m => ~ occurs_in (PDict d) m) rest ->
        exists d',
          set_system_prompt prompt st
          = (Ok tt,
             mkAdapter (max_chat_history st) (max_retry st) prompt
               (PDict d' :: rest))
          /\ getitem (PDict d') "content" = Ok (PStr prompt)
          /\ forall k, String.eqb k "content" = false ->
                       getitem (PDict d') k = getitem (PDict d) k).
Proof.
  split.
  - intros Hplain. unfold set_system_prompt. cbn [set_prompt messages_queue].
    now rewrite (any_system_plain _ Hplain).
  - intros d rest Hq Hs _. exists (dict_set "content" (PStr prompt) d).
    unfold set_system_prompt. cbn [set_prompt messages_queue]. rewrite Hq.
    unfold role_is_system in Hs. cbn [any_system getitem] in Hs |- *.
    destruct (dict_get "role" d) as [r |]; [| discriminate].
    cbn [bind]. rewrite Hs. cbn [setitem]. repeat split.
    + now rewrite dict_get_set_same.
    + intros k Hk. now rewrite dict_get_set_other.
Qed.

Lemma set_system_prompt_effect_witness :
  set_system_prompt "be brief"
    (mkAdapter 10 10 "s" [user_message (PStr "hi")])
  = (Ok tt,
     mkAdapter 10 10 "be brief"
       [system_message "be brief"; user_message (PStr "hi")])
  /\ exists d',
       set_system_prompt "be brief"
         (mkAdapter 10 10 "s" [system_message "s"; user_message (PStr "hi")])
       = (Ok tt, mkAdapter 10 10 "be brief" [PDict d'; user_message (PStr "hi")])
       /\ getitem (PDict d') "content" = Ok (PStr "be brief").
Proof.
  split.
  - apply (proj1 (set_system_prompt_effect "be brief"
                    (mkAdapter 10 10 "s" [user_message (PStr "hi")]))).
    reflexivity.
  - destruct (proj2 (set_system_prompt_effect "be brief"
                       (mkAdapter 10 10 "s"
                          [system_message "s"; user_message (PStr "hi")]))
                _ _ eq_refl eq_refl) as [d' [Hset [Hget _]]].
    + constructor; [| constructor].
      cbn. intuition discriminate.
    + exists d'. split; assumption.
Defined.

Lemma set_system_prompt_stores (prompt : string) (st : Adapter) :
  system_prompt (snd (set_system_prompt prompt st)) = prompt.
Proof.
  unfold set_system_prompt. cbn [set_prompt messages_queue].
  destruct (any_system _) as [[|] |]; [| reflexivity | reflexivity].
  destruct (messages_queue st); [reflexivity |].
  destruct (setitem _ _ _); reflexivity.
Qed.

(** X15: after [set_system_prompt] and then [clear_history] the queue is
    exactly one system message with the new prompt, whatever the queue held
    before and also when [set_system_prompt] raised. *)
Theorem set_then_clear (prompt : string) (st : Adapter) :
  messages_queue (clear_history (snd (set_system_prompt prompt st)))
  = [system_message prompt].
Proof.
  unfold clear_history. cbn [with_queue messages_queue].
  now rewrite set_system_prompt_stores.
Qed.

(** ** [get_response] on arbitrary remote calls *)

(** X16: [get_response] never takes back what [structure_message] did.  In
    both adapters the queue after the call is the queue after
    [structure_message], followed by one assistant message holding the
    returned text when a text is returned, and by nothing when the call
    raises or returns [None]. *)
Theorem get_response_no_rollback (client : Client) (message : pyval)
    (model : string) (st : Adapter) (w : World) :
  let st1 := snd (structure_message message st) in
  let after run :=
    match fst (fst run) with
    | Ok (Some content) =>
        snd (fst run)
        = with_queue st1 (messages_queue st1 ++ [assistant_message content])
    | _ => snd (fst run) = st1
    end in
  after (GroqChat.get_response client message model st w)
  /\ after (OpenAiChat.get_response client message model st w).
Proof.
  cbv zeta. unfold GroqChat.get_response, OpenAiChat.get_response.
  destruct (structure_message message st) as [[q | e] st1]; cbn [fst snd];
    [| split; reflexivity].
  split.
  - destruct (GroqChat.retry_with_exponential_backoff _ _ _ _)
      as [[c | e] w1]; reflexivity.
  - destruct (OpenAiChat.retry_with_exponential_backoff _ _ _ _)
      as [[c | e] w1]; [reflexivity |].
    destruct (is_APIError e); reflexivity.
Qed.

(** X17: the OpenAI [get_response] never raises an [openai.APIError]: the
    caller cannot observe one as an exception. *)
Theorem openai_get_response_never_raises_api_error (client : Client)
    (message : pyval) (model : string) (st : Adapter) (w : World)
    (detail : string) :
  fst (fst (OpenAiChat.get_response client message model st w))
  <> Err (APIError detail).
Proof.
  unfold OpenAiChat.get_response.
  destruct (structure_message message st) as [[q | e] st1] eqn:Hsm.
  - destruct (OpenAiChat.retry_with_exponential_backoff _ _ _ _)
      as [[c | e] w1]; cbn [fst]; [discriminate |].
    destruct (is_APIError e) eqn:He; cbn [fst]; [discriminate |].
    intros H. injection H as ->. discriminate.
  - cbn [fst]. intros H. injection H as ->.
    assert (Hf : fst (structure_message message st) = Err (APIError detail))
      by now rewrite Hsm.
    destruct (structure_message_errors _ _ _ Hf)
      as [[Hn _] | [m' [_ [He | He]]]]; try discriminate.
    apply normalize_error in Hn as [Hn _]. discriminate.
Qed.

(** X18: the OpenAI [get_response] returns [None] only when the budget is
    used up: the remote call was then invoked exactly
    [max 0 max_retry + 1] times. *)
Theorem openai_none_only_after_budget (client : Client) (message : pyval)
    (model : string) (st st' : Adapter) (w w' : World) :
  OpenAiChat.get_response client message model st w = (Ok None, st', w') ->
  Z.of_nat (calls w' - calls w) = Z.max 0 (max_retry st) + 1.
Proof.
  unfold OpenAiChat.get_response,
    OpenAiChat.retry_with_exponential_backoff.
  pose proof (structure_message_max_retry message st) as HR.
  destruct (structure_message message st) as [[q | e] st1];
    [| discriminate]. cbn [snd] in HR.
  destruct (retry_trace is_APIError (max_retry st1)
              (fun n => client n model (messages_queue st1)) (room w) 0 w)
    as [n [Hw [Hn [_ [_ Hend]]]]].
  destruct (retry is_APIError (max_retry st1) _ (room w) 0 w)
    as [[c | e] w1]; [discriminate |].
  cbn [fst snd] in Hw, Hend.
  destruct (is_APIError e) eqn:He; [| discriminate].
  intros H. injection H as _ <-. rewrite Hw. cbn [after_attempts calls].
  destruct Hend as [[Hr Hwhy] | [e0 [_ [_ [[Ho _] | [Hrec _]]]]]].
  - rewrite <- Hr in Hwhy.
    destruct Hwhy as [Hh | [Hb _]]; [congruence | lia].
  - injection Ho as ->. discriminate.
  - injection Hrec as ->. discriminate.
Qed.

Lemma openai_none_only_after_budget_witness :
  Z.of_nat (calls (mkWorld 3 [1; 2]) - calls world0)
  = Z.max 0 (max_retry (init "s" 10 2)) + 1.
Proof.
  apply (openai_none_only_after_budget (fun _ _ _ => Err (APIError "busy"))
           (PStr "hi") "m" (init "s" 10 2)
           (mkAdapter 10 2 "s" [system_message "s"; user_message (PStr "hi")])
           world0 (mkWorld 3 [1; 2])).
  reflexivity.
Defined.

Lemma get_response_rejects_list_witness :
  GroqChat.get_response (fun _ _ _ => Ok "unused")
    (PList [PStr "a"; user_message (PStr "b")]) "m" (init "s" 10 10) world0
  = (Err invalid_format, init "s" 10 10, world0).
Proof.
  apply (proj1 (get_response_rejects_list (fun _ _ _ => Ok "unused")
                  [PStr "a"; user_message (PStr "b")] "m" (init "s" 10 10)
                  world0 eq_refl eq_refl)).
Defined.



(** ** [extract_code] on arbitrary responses *)

(** X22: [extract_code] raises, and then [IndexError], exactly when the
    fence does not occur anywhere in the response. *)
Theorem extract_code_fails_iff_not_substring (response : string) :
  extract_code response = Err IndexError
  <-> forall pre post, response <> (pre ++ fence ++ post)%string.
Proof.
  rewrite <- (count_zero_iff fence response) by discriminate.
  unfold extract_code. pose proof (split_length fence response) as Hlen.
  destruct (split fence response) as [| a [| b rest]]; cbn in Hlen |- *.
  - lia.
  - split; [lia | reflexivity].
  - split; [discriminate | lia].
Qed.

Lemma split_lacks (c0 : ascii) (sep' a : string) :
  lacks c0 a = true -> split (String c0 sep') a = [a].
Proof.
  intros Ha. unfold split.
  rewrite <- (string_app_nil_r a) at 1.
  now rewrite (split_go_lacks c0 sep' a "" "" Ha).
Qed.

Lemma lacks_app (c : ascii) (a b : string) :
  lacks c (a ++ b) = lacks c a && lacks c b.
Proof.
  induction a as [| x a IH]; cbn; [reflexivity |].
  now rewrite IH, andb_assoc.
Qed.

(** X23: a fenced block without a line break gives no code at all: for a
    response whose text before the first fence and whose block hold no
    backtick, and whose block holds no line break, the result is the empty
    list, whether the block is closed by a second fence or runs to the end
    of the response. *)
Theorem extract_code_inline_block (pre block post : string) :
  lacks "`" pre = true -> lacks "`" block = true ->
  lacks "010" block = true ->
  extract_code (pre ++ fence ++ block ++ fence ++ post) = Ok []
  /\ extract_code (pre ++ fence ++ block) = Ok [].
Proof.
  intros Hpre Hblock Hnl. unfold extract_code, fence, newline.
  rewrite !(split_first_piece "`" "``" pre _ Hpre).
  rewrite (split_first_piece "`" "``" block post Hblock).
  rewrite (split_lacks "`" "``" block Hblock). cbn [nth_error].
  rewrite (split_lacks "010" "" block Hnl). split; reflexivity.
Qed.

Lemma extract_code_inline_block_witness :
  extract_code ("run " ++ fence ++ "ls -l" ++ fence ++ " now") = Ok [].
Proof.
  apply (proj1 (extract_code_inline_block "run " "ls -l" " now"
                  eq_refl eq_refl eq_refl)).
Defined.

(** X24: a block that is never closed is read to the end of the response:
    with no backtick before the fence, in the tag and in the body, and no
    line break in the tag, the result is the body split at its line
    breaks. *)
Theorem extract_code_unclosed_block (pre tag body : string) :
  lacks "`" pre = true -> lacks "`" tag = true ->
  lacks "`" body = true -> lacks "010" tag = true ->
  extract_code (pre ++ fence ++ tag ++ newline ++ body)
  = Ok (split newline body).
Proof.
  intros Hpre Htag Hbody Hnl. unfold extract_code, fence, newline.
  rewrite (split_first_piece "`" "``" pre _ Hpre).
  rewrite (split_lacks "`" "``").
  - cbn [nth_error]. rewrite (split_first_piece "010" "" tag body Hnl).
    unfold slice_from. cbn [List.length]. f_equal.
    destruct (Z.ltb_spec 1 0); [lia |].
    replace (Z.to_nat (Z.min 1 _)) with 1%nat by lia.
    reflexivity.
  - rewrite !lacks_app, Htag, Hbody. reflexivity.
Qed.

Lemma extract_code_unclosed_block_witness :
  extract_code ("see " ++ fence ++ "sh" ++ newline ++ "ls") = Ok ["ls"].
Proof.
  apply (extract_code_unclosed_block "see " "sh" "ls"
           eq_refl eq_refl eq_refl eq_refl).
Defined.

Lemma split_go_newline_pieces (s : string) :
  forall cur,
    lacks "010" cur = true ->
    Forall (fun piece => lacks "010" piece = true)
      (split_go newline s 0 cur).
Proof.
  induction s as [| c s IH]; intros cur Hcur.
  - cbn. now constructor.
  - unfold newline. cbn [split_go String.prefix String.length Nat.sub].
    destruct (ascii_dec "010" c) as [<- | Hne].
    + replace (String.prefix "" s) with true by now destruct s.
      constructor; [exact Hcur |]. now apply IH.
    + apply IH. rewrite lacks_app, Hcur. cbn [lacks andb].
      destruct (Ascii.eqb_spec "010" c); [contradiction | reflexivity].
Qed.

Lemma Forall_skipn_keep {A} (P : A -> Prop) (n : nat) :
  forall l, Forall P l -> Forall P (skipn n l).
Proof.
  induction n as [| n IH]; intros l H; [exact H |].
  destruct l as [| a l]; [constructor |].
  cbn [skipn]. apply IH. now inversion H.
Qed.

(** X25: no element of the list [extract_code] returns holds a line
    break. *)
Theorem extract_code_lines_have_no_newline (response : string)
    (lines : list string) :
  extract_code response = Ok lines ->
  Forall (fun line => lacks "010" line = true) lines.
Proof.
  unfold extract_code.
  destruct (nth_error (split fence response) 1) as [block |];
    [| discriminate].
  intros H. injection H as <-. unfold slice_from.
  apply Forall_skipn_keep. now apply split_go_newline_pieces.
Qed.

Lemma extract_code_lines_have_no_newline_witness :
  Forall (fun line => lacks "010" line = true) ["print(1)"; ""].
Proof.
  apply (extract_code_lines_have_no_newline sample_response).
  reflexivity.
Defined.

Lemma split_go_not_nil (sep s : string) :
  forall skip cur, split_go sep s skip cur <> [].
Proof.
  intros skip cur H.
  pose proof (split_go_length sep s skip cur) as Hl.
  rewrite H in Hl. discriminate.
Qed.

Lemma concat_cons (sep x : string) (l : list string) :
  l <> [] -> String.concat sep (x :: l) = (x ++ sep ++ String.concat sep l)%string.
Proof. destruct l; [congruence | reflexivity]. Qed.

Lemma split_go_concat (c0 : ascii) (sep' : string) (n : nat) :
  forall s cur,
    (String.length s <= n)%nat ->
    String.concat (String c0 sep') (split_go (String c0 sep') s 0 cur)
    = (cur ++ s)%string.
Proof.
  induction n as [| n IH]; intros s cur Hlen.
  - destruct s; [| cbn in Hlen; lia]. cbn. now rewrite string_app_nil_r.
  - destruct s as [| c s]; [cbn; now rewrite string_app_nil_r |].
    cbn [String.length] in Hlen. cbn [split_go].
    destruct (String.prefix (String c0 sep') (String c s)) eqn:Hp.
    + destruct (prefix_inv _ _ Hp) as [rest Hrest].
      cbn [append] in Hrest. injection Hrest as -> ->.
      cbn [String.length].
      replace (S (String.length sep') - 1)%nat
        with (String.length sep') by lia.
      rewrite split_go_skip.
      rewrite concat_cons by apply split_go_not_nil.
      rewrite IH.
      * reflexivity.
      * assert (Hl : String.length (sep' ++ rest)
                     = (String.length sep' + String.length rest)%nat).
        { clear. induction sep' as [| x sep' IHs]; cbn; [reflexivity | lia]. }
        lia.
    + rewrite IH by lia. now rewrite string_app_assoc.
Qed.

(** X26: the split loses nothing: the pieces [response.split(fence)] gives,
    joined again with the fence between them, are the response; likewise
    for the split of a block at its line breaks. *)
Theorem split_join (s : string) :
  String.concat fence (split fence s) = s
  /\ String.concat newline (split newline s) = s.
Proof.
  unfold split, fence, newline.
  split; now rewrite (split_go_concat _ _ (String.length s)).
Qed.

(** ** Ordinary use *)

Lemma run_max_chat_history (ops : list op) :
  forall st, max_chat_history (run ops st) = max_chat_history st.
Proof.
  unfold run. induction ops as [| o ops IH]; intros st; [reflexivity |].
  cbn [fold_left]. now rewrite IH, run_op_max_chat_history.
Qed.

(** X27: in ordinary use nothing raises.  With [max_chat_history >= 2], in
    every state reached from a new adapter by appends of accepted inputs
    without system messages, prompt changes and history clears, a further
    such append and a further prompt change both return normally. *)
Theorem reachable_calls_never_raise (prompt prompt' : string) (m r : Z)
    (ops : list op) (message : pyval) :
  2 <= m ->
  forallb non_system_op ops = true ->
  accepted message = true -> no_system_role message = true ->
  (exists q', fst (structure_message message (run ops (init prompt m r)))
              = Ok q')
  /\ fst (set_system_prompt prompt' (run ops (init prompt m r))) = Ok tt.
Proof.
  intros Hm Hops Hacc Hns.
  assert (Hmax : max_chat_history (run ops (init prompt m r)) = m)
    by apply run_max_chat_history.
  assert (Hgood : good (messages_queue (run ops (init prompt m r))) = true).
  { apply (run_good ops (init prompt m r)); cbn;
      first [assumption | reflexivity | lia]. }
  split.
  - destruct (structure_message_good message (run ops (init prompt m r)))
      as [q' [Hsm _]]; try assumption; [lia |].
    exists q'. now rewrite Hsm.
  - destruct (set_system_prompt_good prompt' _ Hgood) as [q' [Hset _]].
    now rewrite Hset.
Qed.

Lemma reachable_calls_never_raise_witness :
  fst (set_system_prompt "t"
         (run [Append (PStr "hi"); ClearHistory] (init "s" 3 10)))
  = Ok tt.
Proof.
  apply (proj2 (reachable_calls_never_raise "s" "t" 3 10
                  [Append (PStr "hi"); ClearHistory] (PStr "more")
                  ltac:(lia) eq_refl eq_refl eq_refl)).
Defined.

(** X28: new messages are never trimmed away when they fit the window: on a
    queue that is empty or led by its only system message, with
    [max_chat_history >= 2], an append of at most [max_chat_history - 1]
    messages (none of them a system message) leaves a queue that ends with
    exactly these messages, in order. *)
Theorem structure_message_keeps_new_messages (message : pyval)
    (st : Adapter) (items : list pyval) :
  2 <= max_chat_history st ->
  good (messages_queue st) = true ->
  normalize message = Ok (PList items) -> forallb plain items = true ->
  Z.of_nat (List.length items) <= max_chat_history st - 1 ->
  exists before q',
    fst (structure_message message st) = Ok q' /\ q' = before ++ items.
Proof.
  intros Hm Hgood Hnorm Hitems Hfit.
  destruct (messages_queue st) as [| s rest] eqn:Hq.
  - exists [system_message (system_prompt st)]. eexists. split; [| reflexivity].
    unfold structure_message. rewrite Hnorm, Hq. cbn [py_iter app].
    unfold trim.
    destruct (Z.gtb_spec (Z.of_nat (List.length items))
                (max_chat_history st)); [lia |].
    now rewrite (ensure_system_plain _ _ Hitems).
  - cbn [good] in Hgood. apply andb_prop in Hgood as [Hs Hrest].
    rewrite (structure_message_on_system_queue message st s rest items)
      by assumption.
    cbn [fst].
    exists (s :: skipn (List.length (rest ++ items)
                        - Z.to_nat (max_chat_history st - 1)) rest).
    eexists. split; [reflexivity |].
    cbn [app]. f_equal. rewrite skipn_app, length_app.
    replace (List.length rest + List.length items
             - Z.to_nat (max_chat_history st - 1) - List.length rest)%nat
      with 0%nat by lia.
    reflexivity.
Qed.

Lemma structure_message_keeps_new_messages_witness :
  exists before q',
    fst (structure_message (PList [PStr "c"; PStr "d"])
           (mkAdapter 3 10 "s"
              [system_message "s"; user_message (PStr "a");
               user_message (PStr "b")]))
    = Ok q'
    /\ q' = before ++ [user_message (PStr "c"); user_message (PStr "d")].
Proof.
  apply (structure_message_keeps_new_messages (PList [PStr "c"; PStr "d"])
           (mkAdapter 3 10 "s"
              [system_message "s"; user_message (PStr "a");
               user_message (PStr "b")]));
    first [reflexivity | cbn; lia].
Defined.
